(** * cliglue: value coercion, help rendering and the resolver

    A shallow embedding of [cliglue/parser/value.py] and
    [cliglue/help/help.py], together with a model of the resolver
    ([cliglue.parser.parser.Parser]) that those modules call.

    Python objects are modelled as follows.
    - [str] is [string] (byte characters; [upper] and the ordering are the
      ASCII ones).
    - A [Set[str]] is the list of its elements in the order in which
      iterating the set yields them; that order is not fixed by the
      language, so nothing below assumes anything about it.
    - A call that may raise returns a [PyResult]: [Ok v] or [Raise e].
    - A dict from variable names to values is a [gmap string Value]. *)

From stdpp Require Import gmap strings list sorting.
From Stdlib Require Import ZArith Ascii String.

Set Warnings "-register-all".

Local Open Scope string_scope.
Local Open Scope list_scope.

(** ** Python values, exceptions and results *)

Inductive Value : Type :=
  | VNone
  | VBool (b : bool)
  | VInt (z : Z)
  | VStr (s : string)
  | VList (l : list Value).

(** Modelled from the spec: [cliglue.parser.error] is not among the sources.
    The failure kinds are those of the error taxonomy, "[MissingValue],
    [ConversionError], [ChoiceViolation], [UnknownToken],
    [MissingRequiredArgument], [DuplicateKeyword]"; all are [CliError]s. *)
Inductive CliErrorKind : Type :=
  | MissingValue
  | ConversionError
  | ChoiceViolation
  | UnknownToken
  | MissingRequiredArgument
  | DuplicateKeyword.

Inductive PyExc : Type :=
  | CliError (kind : CliErrorKind) (subject : string)
  | ValueError (msg : string)
  | TypeError (msg : string)
  | AttributeError (msg : string)
  | StopIteration
  | UserException (cls : string).

Inductive PyResult (A : Type) : Type :=
  | Ok (a : A)
  | Raise (e : PyExc).
Arguments Ok {A} a.
Arguments Raise {A} e.

#[global] Instance PyResult_ret : MRet PyResult := fun A a => Ok a.
#[global] Instance PyResult_bind : MBind PyResult := fun A B f m =>
  match m with
  | Ok a => f a
  | Raise e => Raise e
  end.
#[global] Instance PyResult_fmap : FMap PyResult := fun A B f m =>
  match m with
  | Ok a => Ok (f a)
  | Raise e => Raise e
  end.

(** [isinstance(e, CliError)], the test of an [except CliError] clause. *)
Definition is_CliError (e : PyExc) : bool :=
  match e with
  | CliError _ _ => true
  | _ => false
  end.

Definition is_ConversionError (e : PyExc) : bool :=
  match e with
  | CliError ConversionError _ => true
  | _ => false
  end.

Definition is_ChoiceViolation (e : PyExc) : bool :=
  match e with
  | CliError ChoiceViolation _ => true
  | _ => false
  end.

(** ** Strings *)

Definition nl : string := String (ascii_of_nat 10) "".

Definition upper_char (c : ascii) : ascii :=
  let n := nat_of_ascii c in
  if (97 <=? n)%nat && (n <=? 122)%nat then ascii_of_nat (n - 32) else c.

(** [s.upper()] *)
Fixpoint upper (s : string) : string :=
  match s with
  | EmptyString => EmptyString
  | String c s' => String (upper_char c) (upper s')
  end.

(** [sep.join(l)] *)
Fixpoint join (sep : string) (l : list string) : string :=
  match l with
  | [] => ""
  | [x] => x
  | x :: l' => x +:+ sep +:+ join sep l'
  end.

Fixpoint spaces (n : nat) : string :=
  match n with
  | O => ""
  | S n' => String " " (spaces n')
  end.

(** [s.ljust(width)] *)
Definition ljust (s : string) (width : nat) : string :=
  s +:+ spaces (width - String.length s).

(** [s.startswith('v')] *)
Definition startswith_v (s : string) : bool :=
  match s with
  | String "v" _ => true
  | _ => false
  end.

(** Truthiness of an [Optional[str]]: [None] and [''] are false. *)
Definition truthy_str (o : option string) : bool :=
  match o with
  | Some (String _ _) => true
  | _ => false
  end.

(** The text an f-string puts for an [Optional[str]]. *)
Definition fmt (o : option string) : string :=
  match o with
  | Some s => s
  | None => "None"
  end.

(** ** The built-in [int] applied to a string *)

Definition is_space (c : ascii) : bool :=
  let n := nat_of_ascii c in
  (n =? 32)%nat || ((9 <=? n)%nat && (n <=? 13)%nat).

Definition digit_of (c : ascii) : option Z :=
  let n := nat_of_ascii c in
  if (48 <=? n)%nat && (n <=? 57)%nat then Some (Z.of_nat (n - 48)) else None.

Fixpoint lstrip (s : string) : string :=
  match s with
  | String c s' => if is_space c then lstrip s' else s
  | EmptyString => EmptyString
  end.

Definition strip (s : string) : string :=
  String.rev (lstrip (String.rev (lstrip s))).

(** Decimal digits, single underscores allowed between two digits. *)
Fixpoint digits_value (acc : Z) (after_digit : bool) (s : string) : option Z :=
  match s with
  | EmptyString => if after_digit then Some acc else None
  | String c s' =>
      if Ascii.eqb c "_" then
        (if after_digit then digits_value acc false s' else None)
      else
        match digit_of c with
        | Some d => digits_value (10 * acc + d) true s'
        | None => None
        end
  end.

Definition int_literal (s : string) : option Z :=
  match s with
  | String "-" s' => Z.opp <$> digits_value 0 false s'
  | String "+" s' => digits_value 0 false s'
  | _ => digits_value 0 false s
  end.

(** [int(arg)] for a string [arg]: a [ValueError] unless [arg] is a decimal
    literal, surrounding whitespace ignored. *)
Definition py_int (arg : string) : PyResult Value :=
  match int_literal (strip arg) with
  | Some z => Ok (VInt z)
  | None => Raise (ValueError ("invalid literal for int() with base 10: '" +:+ arg +:+ "'"))
  end.

(** [str(arg)] for a string [arg]. *)
Definition py_str (arg : string) : PyResult Value := Ok (VStr arg).

(** ** Rules *)

(** Modelled from the spec: [cliglue.builder.typedef] and
    [cliglue.builder.rule] are not among the sources; the rule classes carry
    the fields of the spec's data model, under the names by which [value.py]
    and [help.py] read them.

    [TypeOrParser]: [None], something callable with one string, or any
    other object. *)
Inductive TypeOrParser : Type :=
  | TNone
  | TCallable (f : string -> PyResult Value)
  | TNotCallable (repr : string).

(** Modelled from the spec: "[choices: optional<list<value> |
    producer-function>]". The [choices] field of a value rule: unset, a
    list, a function taking [required_args] arguments without default, or
    any other object (of which only the truthiness matters). *)
Inductive Choices : Type :=
  | CUnset
  | CList (l : list Value)
  | CFunction (required_args : nat) (body : unit -> PyResult (list Value))
  | CObject (truthy : bool) (repr : string).

(** Modelled from the spec: the fields shared by [Parameter] and
    [PositionalArgument] ("type, default, required, multiple, choices,
    strict_choices, help"), the [ValueRule] of [value.py]. *)
Record ValueRule : Type := mkValueRule {
  rule_type : TypeOrParser;
  rule_default : Value;
  rule_required : bool;
  rule_multiple : bool;
  rule_choices : Choices;
  rule_strict_choices : bool;
  rule_help : option string
}.

(** Modelled from the spec: the tagged union [Rule], one constructor per
    rule class that [help.py] imports; [keywords] is a set, [subrules] the
    ordered children, [run] the name of the action. *)
Inductive CliRule : Type :=
  | SubcommandRule (keywords : list string) (help : option string)
      (subrules : list CliRule) (run : option string)
  | PrimaryOptionRule (keywords : list string) (help : option string)
  | FlagRule (keywords : list string) (help : option string)
  | ParameterRule (keywords : list string) (name : option string) (v : ValueRule)
  | PositionalArgumentRule (name : string) (v : ValueRule)
  | AllArgumentsRule (name : string).

(** ** [cliglue/parser/value.py] *)

Definition callable (t : TypeOrParser) : bool :=
  match t with
  | TCallable _ => true
  | _ => false
  end.

(** [_type(arg)] *)
Definition call_type (t : TypeOrParser) (arg : string) : PyResult Value :=
  match t with
  | TCallable f => f arg
  | TNotCallable repr => Raise (TypeError ("'" +:+ repr +:+ "' object is not callable"))
  | TNone => Raise (TypeError "'NoneType' object is not callable")
  end.

Definition parse_typed_value (_type : TypeOrParser) (arg : string) : PyResult Value :=
  match _type with
  | TNone => Ok (VStr arg)
  | _ =>
      (* custom parser *)
      if callable _type then call_type _type arg
      (* cast to custom type or default types *)
      else call_type _type arg
  end.

Definition parse_value_rule (rule : ValueRule) (arg : string) : PyResult Value :=
  parse_typed_value (rule_type rule) arg.

(** [not rule.choices] *)
Definition choices_falsy (c : Choices) : bool :=
  match c with
  | CUnset => true
  | CList l => match l with [] => true | _ => false end
  | CFunction _ _ => false
  | CObject truthy _ => negb truthy
  end.

Definition generate_value_choices (rule : ValueRule) : PyResult (list Value) :=
  if choices_falsy (rule_choices rule) then Ok []
  else
    match rule_choices rule with
    | CList l => Ok l
    | CFunction required_args body =>
        (* inspect.getfullargspec accepts every function; the call without
           arguments needs a function without required arguments *)
        match required_args with
        | O => body tt
        | S _ => Raise (TypeError "missing required positional argument")
        end
    | CObject _ repr => Raise (TypeError "unsupported callable")
    | CUnset => Ok []
    end.

(** ** Attributes of rules *)

(** [rule.keywords] of a keyword rule. *)
Definition keywords_of (rule : CliRule) : list string :=
  match rule with
  | SubcommandRule keywords _ _ _ => keywords
  | PrimaryOptionRule keywords _ => keywords
  | FlagRule keywords _ => keywords
  | ParameterRule keywords _ _ => keywords
  | PositionalArgumentRule _ _ => []
  | AllArgumentsRule _ => []
  end.

Definition has_keywords (rule : CliRule) : bool :=
  match rule with
  | PositionalArgumentRule _ _ | AllArgumentsRule _ => false
  | _ => true
  end.

(** [rule.help] *)
Definition help_of (rule : CliRule) : option string :=
  match rule with
  | SubcommandRule _ help _ _ => help
  | PrimaryOptionRule _ help => help
  | FlagRule _ help => help
  | ParameterRule _ _ v => rule_help v
  | PositionalArgumentRule _ v => rule_help v
  | AllArgumentsRule _ => None
  end.

(** [rule.name] *)
Definition name_of (rule : CliRule) : option string :=
  match rule with
  | ParameterRule _ name _ => name
  | PositionalArgumentRule name _ => Some name
  | AllArgumentsRule name => Some name
  | _ => None
  end.

(** [rule.required] *)
Definition required_of (rule : CliRule) : bool :=
  match rule with
  | ParameterRule _ _ v => rule_required v
  | PositionalArgumentRule _ v => rule_required v
  | _ => false
  end.

(** [rule.subrules] *)
Definition subrules_of (rule : CliRule) : list CliRule :=
  match rule with
  | SubcommandRule _ _ subrules _ => subrules
  | _ => []
  end.

Inductive RuleClass : Type :=
  | SubcommandRuleT
  | PrimaryOptionRuleT
  | FlagRuleT
  | ParameterRuleT
  | PositionalArgumentRuleT
  | AllArgumentsRuleT.

(** [isinstance(rule, cls)] *)
Definition isinstance (rule : CliRule) (cls : RuleClass) : bool :=
  match rule, cls with
  | SubcommandRule _ _ _ _, SubcommandRuleT => true
  | PrimaryOptionRule _ _, PrimaryOptionRuleT => true
  | FlagRule _ _, FlagRuleT => true
  | ParameterRule _ _ _, ParameterRuleT => true
  | PositionalArgumentRule _ _, PositionalArgumentRuleT => true
  | AllArgumentsRule _, AllArgumentsRuleT => true
  | _, _ => false
  end.

(** Modelled from the spec: [cliglue.parser.rule_process.filter_rules] is
    not among the sources; help "lists exactly the options valid" in a rule
    set by kind, so it keeps, in order, the rules of the given class. *)
Definition filter_rules (rules : list CliRule) (cls : RuleClass) : list CliRule :=
  List.filter (fun rule => isinstance rule cls) rules.

(** Modelled from the spec: [cliglue.parser.context.RunContext] is not among
    the sources. It is the resolution context: "the final scope stack
    (innermost-last), the full set of rules reachable at that scope, and the
    bindings mapping", the first two under the names [help.py] reads. *)
Record RunContext : Type := mkRunContext {
  active_subcommands : list CliRule;
  active_rules : list CliRule;
  bindings : gmap string Value
}.

(** ** [cliglue/help/help.py] *)

Inductive _OptionHelp : Type :=
  mk_OptionHelp { cmd : string; help_text : option string; parent : option _OptionHelp }.

(** The order of [sorted(keywords, key=lambda k: (len(k), k))]: tuples
    compare lexicographically, strings by code point. *)
Definition keyword_leb (a b : string) : bool :=
  (String.length a <? String.length b)%nat
  || ((String.length a =? String.length b)%nat && String.leb a b).

Definition keyword_le (a b : string) : Prop := Is_true (keyword_leb a b).

#[global] Instance keyword_le_dec : RelDecision keyword_le.
Proof. intros a b. unfold keyword_le. apply _. Defined.

Definition sorted_keywords (keywords : list string) : list string :=
  (* shortest keywords first, then alphabetically *)
  merge_sort keyword_le keywords.

(** [next(iter(rule.keywords))]: the element the iteration of the set
    yields first. *)
Definition _subcommand_short_name (rule : CliRule) : PyResult string :=
  if has_keywords rule then
    match keywords_of rule with
    | k :: _ => Ok k
    | [] => Raise StopIteration
    end
  else Raise (AttributeError "keywords").

Definition _argument_var_name (rule : CliRule) : string :=
  upper (fmt (name_of rule)).

(** [max(names, key=lambda n: len(n))]: the first element of greatest
    length. *)
Fixpoint max_by_len_from (best : string) (names : list string) : string :=
  match names with
  | [] => best
  | n :: names' =>
      if (String.length best <? String.length n)%nat
      then max_by_len_from n names'
      else max_by_len_from best names'
  end.

Definition max_by_len (names : list string) : PyResult string :=
  match names with
  | [] => Raise (ValueError "max() arg is an empty sequence")
  | n :: names' => Ok (max_by_len_from n names')
  end.

Definition _subcommand_prefix (helper : option _OptionHelp) : string :=
  match helper with
  | None => ""
  | Some h => cmd h +:+ " "
  end.

Definition _subcommand_help (rule : CliRule) (parent : option _OptionHelp) : _OptionHelp :=
  let cmd := _subcommand_prefix parent +:+ join "|" (sorted_keywords (keywords_of rule)) in
  mk_OptionHelp cmd (help_of rule) parent.

Definition _primary_option_help (rule : CliRule) : _OptionHelp :=
  let cmd := join ", " (sorted_keywords (keywords_of rule)) in
  mk_OptionHelp cmd (help_of rule) None.

Definition _flag_help (rule : CliRule) : _OptionHelp :=
  let cmd := join ", " (sorted_keywords (keywords_of rule)) in
  mk_OptionHelp cmd (help_of rule) None.

Definition _normalized_version (version : string) : string :=
  if startswith_v version then version else "v" +:+ version.

Definition app_help_info (app_name help version : option string) : option string :=
  if truthy_str app_name then
    let app_info := fmt app_name in
    let app_info :=
      if truthy_str version
      then app_info +:+ " " +:+ _normalized_version (fmt version)
      else app_info in
    let app_info :=
      if truthy_str help then app_info +:+ " - " +:+ fmt help else app_info in
    Some (app_info +:+ nl)
  else if truthy_str help then Some (fmt help +:+ nl)
  else None.

(** The line [print_version] writes to the standard output. *)
Definition print_version (app_name version : option string) : string :=
  if truthy_str version
  then fmt app_name +:+ " " +:+ _normalized_version (fmt version)
  else fmt app_name.

Definition _max_name_width (helps : list _OptionHelp) : PyResult nat :=
  match List.map (fun h => String.length (cmd h)) helps with
  | [] => Raise (ValueError "max() arg is an empty sequence")
  | w :: ws => Ok (List.fold_left Nat.max ws w)
  end.

(** The lines [__helpers_output] appends to [out]. *)
Definition __helpers_output (commands : list _OptionHelp) (out : list string)
  : PyResult (list string) :=
  padding ← _max_name_width commands;
  Ok (out ++ List.map (fun helper =>
        let name_padded := ljust (cmd helper) padding in
        if truthy_str (help_text helper)
        then "  " +:+ name_padded +:+ " - " +:+ fmt (help_text helper)
        else "  " +:+ name_padded) commands).

(** [_generate_commands_helps] on one rule: the helper of a subcommand
    followed by those of its subrules, with that helper as parent. *)
Fixpoint _generate_commands_helps_rule (parent : option _OptionHelp) (rule : CliRule)
  : list _OptionHelp :=
  match rule with
  | SubcommandRule _ _ subrules _ =>
      let helper := _subcommand_help rule parent in
      helper :: List.flat_map (_generate_commands_helps_rule (Some helper)) subrules
  | _ => []
  end.

Definition _generate_commands_helps (rules : list CliRule) (parent : option _OptionHelp)
  : list _OptionHelp :=
  List.flat_map (_generate_commands_helps_rule parent) rules.

(** [[f(x) for x in l]] for an [f] that may raise. *)
Fixpoint map_result {A B : Type} (f : A -> PyResult B) (l : list A) : PyResult (list B) :=
  match l with
  | [] => Ok []
  | x :: l' => y ← f x; ys ← map_result f l'; Ok (y :: ys)
  end.

Definition nonempty {A : Type} (l : list A) : bool :=
  match l with
  | [] => false
  | _ => true
  end.

Definition dquote : string := String (ascii_of_nat 34) "".

Section Help.

(** [Parser(rules, dry=dry).parse_args(args)] *)
Variable Parser_parse_args : list CliRule -> bool -> list string -> PyResult RunContext.
(** [cliglue.parser.keyword.names_from_keywords]; the result is a set,
    given in its iteration order. *)
Variable names_from_keywords : list string -> list string.
(** [sys.argv[0]] *)
Variable argv0 : string.

Definition _param_var_name (rule : CliRule) : PyResult string :=
  if truthy_str (name_of rule) then Ok (upper (fmt (name_of rule)))
  else
    (* get name from longest keyword *)
    let names := names_from_keywords (keywords_of rule) in
    upper <$> max_by_len names.

Definition _parameter_help (rule : CliRule) : PyResult _OptionHelp :=
  var_name ← _param_var_name rule;
  let cmd := join ", " (sorted_keywords (keywords_of rule)) +:+ " " +:+ var_name in
  Ok (mk_OptionHelp cmd (help_of rule) None).

Definition _generate_option_help (rule : CliRule) : PyResult (option _OptionHelp) :=
  if isinstance rule PrimaryOptionRuleT then Ok (Some (_primary_option_help rule))
  else if isinstance rule FlagRuleT then Ok (Some (_flag_help rule))
  else if isinstance rule ParameterRuleT then Some <$> _parameter_help rule
  else Ok None.

Definition _generate_options_helps (rules : list CliRule) : PyResult (list _OptionHelp) :=
  (* filter non-empty *)
  helps ← map_result _generate_option_help rules;
  Ok (List.flat_map (fun o : option _OptionHelp => option_list o) helps).

Definition generate_subcommand_help (subrules all_rules : list CliRule)
    (app_name version help : option string) (precommands : list string)
  : PyResult (list string) :=
  let command_rules := filter_rules subrules SubcommandRuleT in
  let flags := filter_rules all_rules FlagRuleT in
  let parameters := filter_rules all_rules ParameterRuleT in
  let primary_options := filter_rules all_rules PrimaryOptionRuleT in
  let pos_arguments := filter_rules all_rules PositionalArgumentRuleT in
  let all_args := filter_rules all_rules AllArgumentsRuleT in
  options ← _generate_options_helps all_rules;
  let commands := _generate_commands_helps command_rules None in
  (* App info *)
  let out :=
    match app_help_info app_name help version with
    | Some app_info => [app_info]
    | None => []
    end in
  (* Usage *)
  let app_bin_prefix := join " " (argv0 :: precommands) in
  let usage_syntax := app_bin_prefix in
  let usage_syntax :=
    if nonempty commands then usage_syntax +:+ " [COMMAND]" else usage_syntax in
  let usage_syntax :=
    if nonempty flags || nonempty parameters || nonempty primary_options
    then usage_syntax +:+ " [OPTIONS]" else usage_syntax in
  let usage_syntax :=
    List.fold_left (fun usage rule =>
      let var_name := _argument_var_name rule in
      if required_of rule then usage +:+ " " +:+ var_name
      else usage +:+ " [" +:+ var_name +:+ "]") pos_arguments usage_syntax in
  let usage_syntax :=
    List.fold_left (fun usage rule =>
      usage +:+ " [" +:+ fmt (name_of rule) +:+ "...]") all_args usage_syntax in
  let out := out ++ ["Usage:" +:+ nl +:+ "  " +:+ usage_syntax] in
  out ← (if nonempty options
         then __helpers_output options (out ++ [nl +:+ "Options:"])
         else Ok out);
  out ← (if nonempty commands
         then
           out ← __helpers_output commands (out ++ [nl +:+ "Commands:"]);
           Ok (out ++ [nl +:+ "Run " +:+ dquote +:+ app_bin_prefix
                        +:+ " COMMAND --help" +:+ dquote
                        +:+ " for more information on a command."])
         else Ok out);
  Ok out.

Definition generate_help (rules : list CliRule) (app_name version help : option string)
    (subargs : list string) : PyResult (list string) :=
  let attempt :=
    run_context ← Parser_parse_args rules true subargs;
    let all_rules := active_rules run_context in
    let activate_subcommands := active_subcommands run_context in
    precommands ← map_result _subcommand_short_name activate_subcommands;
    Ok (all_rules, precommands) in
  match attempt with
  | Ok (all_rules, precommands) =>
      generate_subcommand_help rules all_rules app_name version help precommands
  | Raise e =>
      if is_CliError e
      then generate_subcommand_help rules rules app_name version help []
      else Raise e
  end.

End Help.

(** ** The resolver *)

(** Modelled from the spec: "stripping any leading marker characters such
    as [--]/[-]" from one keyword. *)
Fixpoint strip_markers (keyword : string) : string :=
  match keyword with
  | String "-" rest => strip_markers rest
  | _ => keyword
  end.

(** Modelled from the spec: [cliglue.parser.keyword.names_from_keywords] is
    not among the sources. It gives "the set of plain alias names"; the set
    is given in the order of first occurrence. *)
Definition names_from_keywords (keywords : list string) : list string :=
  remove_dups (strip_markers <$> keywords).

(** Modelled from the spec: "comparison performed on the raw string";
    [raw == choice] for a string [raw], to which only an equal string is
    equal. *)
Definition str_equals (raw : string) (choice : Value) : bool :=
  match choice with
  | VStr s => String.eqb raw s
  | _ => false
  end.

(** Modelled from the spec: the choice validation of the resolver is not
    among the sources. "When [strict_choices] is set and [resolve_choices] is
    non-empty, fails with a [ChoiceViolation] if [raw] is absent from the
    resolved choice list (comparison performed on the raw string, before type
    coercion)". The choices are resolved by [generate_value_choices]. *)
Definition validate_choice (rule : ValueRule) (raw : string) : PyResult unit :=
  if rule_strict_choices rule then
    choices ← generate_value_choices rule;
    if nonempty choices && negb (existsb (str_equals raw) choices)
    then Raise (CliError ChoiceViolation raw)
    else Ok tt
  else Ok tt.

(** Modelled from the spec: "apply validation and coercion" to the raw
    value of a parameter or positional argument. *)
Definition parse_argument_value (rule : ValueRule) (raw : string) : PyResult Value :=
  _ ← validate_choice rule raw;
  parse_value_rule rule raw.

(** Modelled from the spec: the variable a rule binds is its explicit name
    or, "when no explicit name is given", a stripped keyword; as in the help
    placeholder, the longest one. *)
Definition var_name_of (rule : CliRule) : string :=
  if truthy_str (name_of rule) then fmt (name_of rule)
  else
    match max_by_len (names_from_keywords (keywords_of rule)) with
    | Ok n => n
    | Raise _ => ""
    end.

(** Modelled from the spec: the state carried through a pass. The cursor is
    the list of tokens still to read, the satisfied names are the domain of
    the bindings, and the catch-all capture is the binding of its name. *)
Record ParserState : Type := mkParserState {
  scope_stack : list CliRule;
  st_bindings : gmap string Value;
  positional_cursor : nat;
  primary_activated : list string
}.

(** Modelled from the spec: the state at the start of a pass, in the root
    scope with nothing bound. *)
Definition initial_state : ParserState := mkParserState [] ∅ 0 [].

(** Modelled from the spec: "the currently reachable rule set (considering
    nested subcommand scopes)": the rules of the root and of every subcommand
    entered (the tests read a root parameter after a subcommand). *)
Definition reachable_rules (root : list CliRule) (stack : list CliRule) : list CliRule :=
  root ++ List.flat_map subrules_of stack.

(** Modelled from the spec: the "current scope" of steps 4 and 5, "root, or
    a subcommand's children": the rules of the innermost subcommand. *)
Definition current_scope (root : list CliRule) (stack : list CliRule) : list CliRule :=
  match last stack with
  | Some sub => subrules_of sub
  | None => root
  end.

(** Modelled from the spec: "the token exactly matches a keyword" of the
    rule, the unstripped literal token being compared. *)
Definition has_keyword (tok : string) (rule : CliRule) : bool :=
  existsb (String.eqb tok) (keywords_of rule).

(** Modelled from the spec: step 1, the first reachable [Subcommand] with
    that keyword. *)
Definition find_subcommand (rules : list CliRule) (tok : string) : option CliRule :=
  List.find (fun rule => isinstance rule SubcommandRuleT && has_keyword tok rule) rules.

(** Modelled from the spec: step 2, the first reachable [Flag] or
    [PrimaryOption] with that keyword. *)
Definition find_flag (rules : list CliRule) (tok : string) : option CliRule :=
  List.find (fun rule =>
    (isinstance rule FlagRuleT || isinstance rule PrimaryOptionRuleT)
    && has_keyword tok rule) rules.

(** Modelled from the spec: step 3, the first reachable [Parameter] with
    keyword [tok]: its variable and its value rule. *)
Definition as_parameter (tok : string) (rule : CliRule) : option (string * ValueRule) :=
  match rule with
  | ParameterRule _ _ v =>
      if has_keyword tok rule then Some (var_name_of rule, v) else None
  | _ => None
  end.

Definition find_parameter (rules : list CliRule) (tok : string)
  : option (string * ValueRule) :=
  head (omap (as_parameter tok) rules).

(** Modelled from the spec: the "[=]-split key" and the value "embedded
    after [=]": [tok.split('=', 1)] when [tok] has an [=]. *)
Fixpoint split_equals (tok : string) : option (string * string) :=
  match tok with
  | EmptyString => None
  | String c rest =>
      if Ascii.eqb c "=" then Some (EmptyString, rest)
      else
        match split_equals rest with
        | Some (key, value) => Some (String c key, value)
        | None => None
        end
  end.

(** Modelled from the spec: step 2 matches "the token (or its prefix up to
    [=])". *)
Definition find_flag_token (rules : list CliRule) (tok : string) : option CliRule :=
  match find_flag rules tok with
  | Some flag => Some flag
  | None =>
      match split_equals tok with
      | Some (key, _) => find_flag rules key
      | None => None
      end
  end.

(** Modelled from the spec: step 3 on a token that is no keyword itself:
    "its [=]-split key", with the value embedded after the [=]. *)
Definition find_parameter_embedded (rules : list CliRule) (tok : string)
  : option (string * ValueRule * string) :=
  match split_equals tok with
  | Some (key, raw) =>
      match find_parameter rules key with
      | Some (var, v) => Some (var, v, raw)
      | None => None
      end
  | None => None
  end.

(** Modelled from the spec: step 1, "push that rule onto the scope stack,
    reset the positional cursor for the new scope". *)
Definition push_scope (sub : CliRule) (st : ParserState) : ParserState :=
  mkParserState (scope_stack st ++ [sub]) (st_bindings st) 0 (primary_activated st).

(** Modelled from the spec: step 2, "bind its variable to presence
    ([true])"; a [PrimaryOption] also marks itself activated. *)
Definition bind_flag (flag : CliRule) (st : ParserState) : ParserState :=
  mkParserState (scope_stack st)
    (<[var_name_of flag := VBool true]> (st_bindings st))
    (positional_cursor st)
    (if isinstance flag PrimaryOptionRuleT
     then primary_activated st ++ [var_name_of flag]
     else primary_activated st).

(** Modelled from the spec: "If [multiple], append to the accumulated
    sequence for that variable; otherwise overwrite (last occurrence
    wins)". *)
Definition accumulate (multiple : bool) (old : option Value) (value : Value) : Value :=
  if multiple then
    match old with
    | Some (VList l) => VList (l ++ [value])
    | _ => VList [value]
    end
  else value.

(** Modelled from the spec: steps 3 and 4, validate and coerce the raw
    value, then bind the variable. *)
Definition bind_value (var : string) (v : ValueRule) (raw : string) (st : ParserState)
  : PyResult ParserState :=
  value ← parse_argument_value v raw;
  Ok (mkParserState (scope_stack st)
        (<[var := accumulate (rule_multiple v) (st_bindings st !! var) value]>
           (st_bindings st))
        (positional_cursor st) (primary_activated st)).

(** Modelled from the spec: step 4, the "[PositionalArgument] at the current
    scope's positional cursor", if one is left. *)
Definition next_positional (root : list CliRule) (st : ParserState)
  : option (string * ValueRule) :=
  match filter_rules (current_scope root (scope_stack st)) PositionalArgumentRuleT
          !! positional_cursor st with
  | Some (PositionalArgumentRule name v) => Some (name, v)
  | _ => None
  end.

(** Modelled from the spec: step 4, "advance the positional cursor". *)
Definition advance_positional (st : ParserState) : ParserState :=
  mkParserState (scope_stack st) (st_bindings st) (S (positional_cursor st))
    (primary_activated st).

(** Modelled from the spec: step 5, "an [AllArguments] rule exists at the
    current scope". *)
Definition find_all_arguments (root : list CliRule) (st : ParserState) : option string :=
  match filter_rules (current_scope root (scope_stack st)) AllArgumentsRuleT with
  | AllArgumentsRule name :: _ => Some name
  | _ => None
  end.

(** Modelled from the spec: step 5, "append this token (and every
    subsequent token, unconditionally, without further matching) to its
    capture list". *)
Definition capture (name : string) (toks : list string) (st : ParserState) : ParserState :=
  let old :=
    match st_bindings st !! name with
    | Some (VList l) => l
    | _ => []
    end in
  mkParserState (scope_stack st)
    (<[name := VList (old ++ (VStr <$> toks))]> (st_bindings st))
    (positional_cursor st) (primary_activated st).

(** Modelled from the spec: the per-token algorithm of the resolver, "single
    left-to-right pass, no backtracking", steps 1 to 6 in that order. *)
Fixpoint consume (dry : bool) (root : list CliRule) (st : ParserState)
    (toks : list string) {struct toks} : PyResult ParserState :=
  match toks with
  | [] => Ok st
  | tok :: rest =>
      let rules := reachable_rules root (scope_stack st) in
      match find_subcommand rules tok with
      | Some sub => consume dry root (push_scope sub st) rest
      | None =>
      match find_flag_token rules tok with
      | Some flag => consume dry root (bind_flag flag st) rest
      | None =>
      match find_parameter rules tok with
      | Some (var, v) =>
          match rest with
          | [] => Raise (CliError MissingValue tok)
          | raw :: rest' =>
              match bind_value var v raw st with
              | Ok st' => consume dry root st' rest'
              | Raise e => Raise e
              end
          end
      | None =>
      match find_parameter_embedded rules tok with
      | Some (var, v, raw) =>
          match bind_value var v raw st with
          | Ok st' => consume dry root st' rest
          | Raise e => Raise e
          end
      | None =>
      match next_positional root st with
      | Some (name, v) =>
          match bind_value name v tok st with
          | Ok st' => consume dry root (advance_positional st') rest
          | Raise e => Raise e
          end
      | None =>
      match find_all_arguments root st with
      | Some name => Ok (capture name (tok :: rest) st)
      | None =>
          if dry then consume dry root st rest
          else Raise (CliError UnknownToken tok)
      end end end end end end
  end.

(** Modelled from the spec: the variable of a rule and the value an unbound
    optional rule gets: the declared [default]; with [multiple=true] the
    "empty collection, not absent", whatever the default; for a flag
    "[false]". *)
Definition default_binding (rule : CliRule) : option (string * Value) :=
  match rule with
  | FlagRule _ _ | PrimaryOptionRule _ _ => Some (var_name_of rule, VBool false)
  | ParameterRule _ _ v | PositionalArgumentRule _ v =>
      Some (var_name_of rule, if rule_multiple v then VList [] else rule_default v)
  | _ => None
  end.

(** Modelled from the spec: a rule "whose [required=true] and whose variable
    was never bound". *)
Definition is_missing (b : gmap string Value) (rule : CliRule) : bool :=
  required_of rule && bool_decide (b !! var_name_of rule = None).

(** Modelled from the spec: "Apply declared [default] values to every
    unbound optional rule", rule after rule. *)
Fixpoint apply_defaults (rules : list CliRule) (b : gmap string Value)
  : gmap string Value :=
  match rules with
  | [] => b
  | rule :: rules' =>
      apply_defaults rules'
        match default_binding rule with
        | Some (var, d) =>
            match b !! var with
            | Some _ => b
            | None => <[var := d]> b
            end
        | None => b
        end
  end.

(** Modelled from the spec: "End-of-input finalization (strict mode only):
    for every rule reachable in the final scope whose [required=true] and
    whose variable was never bound, fail with [MissingRequiredArgument],
    identifying the rule. Apply declared [default] values to every unbound
    optional rule." *)
Definition finalize (root : list CliRule) (st : ParserState) : PyResult RunContext :=
  let rules := reachable_rules root (scope_stack st) in
  match List.find (is_missing (st_bindings st)) rules with
  | Some rule => Raise (CliError MissingRequiredArgument (var_name_of rule))
  | None =>
      Ok (mkRunContext (scope_stack st) rules (apply_defaults rules (st_bindings st)))
  end.

(** Modelled from the spec: "In dry mode, skip this finalization — the
    partial context is still valid output." *)
Definition partial_context (root : list CliRule) (st : ParserState) : RunContext :=
  mkRunContext (scope_stack st) (reachable_rules root (scope_stack st)) (st_bindings st).

(** Modelled from the spec: the rest of a pass from the state [st]: the
    tokens are consumed, then, in strict mode only, the end of input is
    checked. *)
Definition resolve_from (dry : bool) (root : list CliRule) (st : ParserState)
    (toks : list string) : PyResult RunContext :=
  st' ← consume dry root st toks;
  if dry then Ok (partial_context root st') else finalize root st'.

(** Modelled from the spec: [Parser(rules, dry=dry).parse_args(args)], one
    resolution pass from the root scope. *)
Definition parse_args (rules : list CliRule) (dry : bool) (args : list string)
  : PyResult RunContext :=
  resolve_from dry rules initial_state args.

(** ** Notions used in the statements *)

(** A call that raises no [CliError]. *)
Definition no_CliError {A : Type} (r : PyResult A) : Prop :=
  forall e, r = Raise e -> is_CliError e = false.

(** No keyword of the rules has an [=] in it. *)
Definition equals_free (rules : list CliRule) : Prop :=
  Forall (fun rule => Forall (fun k => split_equals k = None) (keywords_of rule)) rules.

(** The token [k] is read as a keyword of the parameter binding [var] with
    value rule [v]: steps 1 and 2 of the resolver pass it by and step 3
    finds that parameter. *)
Definition resolves_to_parameter (rules : list CliRule) (k var : string) (v : ValueRule)
  : Prop :=
  find_subcommand rules k = None /\
  find_flag rules k = None /\
  find_parameter rules k = Some (var, v).

(** One occurrence of a parameter in a token list, in either form. *)
Inductive Occurrence : Type :=
  | TwoTokens (k raw : string)
  | WithEquals (k raw : string).

Definition occ_keyword (o : Occurrence) : string :=
  match o with
  | TwoTokens k _ | WithEquals k _ => k
  end.

Definition occ_raw (o : Occurrence) : string :=
  match o with
  | TwoTokens _ raw | WithEquals _ raw => raw
  end.

Definition tokens_of (o : Occurrence) : list string :=
  match o with
  | TwoTokens k raw => [k; raw]
  | WithEquals k raw => [k +:+ "=" +:+ raw]
  end.

(** The variables the rules bind, one per rule that binds one. *)
Definition bound_variables (rules : list CliRule) : list string :=
  omap (fun rule => fst <$> default_binding rule) rules.

(** The bindings after the values [values] were appended to the sequence
    [acc] of [var]; nothing changes when there is no value. *)
Definition appended (var : string) (acc values : list Value) (b : gmap string Value)
  : gmap string Value :=
  match values with
  | [] => b
  | _ => <[var := VList (acc ++ values)]> b
  end.

(** The rules that get a line among the options of the help. *)
Definition is_option (rule : CliRule) : bool :=
  isinstance rule PrimaryOptionRuleT || isinstance rule FlagRuleT
  || isinstance rule ParameterRuleT.

(** The number of subcommands in a rule tree, nested ones included. *)
Fixpoint subcommand_count_rule (rule : CliRule) : nat :=
  match rule with
  | SubcommandRule _ _ subrules _ => S (list_sum (List.map subcommand_count_rule subrules))
  | _ => 0
  end.

Definition subcommand_count (rules : list CliRule) : nat :=
  list_sum (List.map subcommand_count_rule rules).

(** A parameter rule from which [_param_var_name] gets a name. *)
Definition nameable (names_of : list string -> list string) (rule : CliRule) : bool :=
  negb (isinstance rule ParameterRuleT)
  || truthy_str (name_of rule)
  || nonempty (names_of (keywords_of rule)).

(** The number of lines of a section of the help with [n] entries and
    [extra] lines around them; no entry, no section. *)
Definition section_lines (n extra : nat) : nat :=
  match n with
  | O => 0
  | S _ => n + extra
  end.

(** The state after the variable [var] of the value rule [v] was bound to
    the coerced value [value]. *)
Definition with_value (st : ParserState) (var : string) (v : ValueRule) (value : Value)
  : ParserState :=
  mkParserState (scope_stack st)
    (<[var := accumulate (rule_multiple v) (st_bindings st !! var) value]> (st_bindings st))
    (positional_cursor st) (primary_activated st).

(** The chains of subcommands of a rule tree: each goes from a rule of the
    list down to one subcommand, and a chain comes before those that go on
    below it. *)
Fixpoint subcommand_paths_rule (rule : CliRule) : list (list CliRule) :=
  match rule with
  | SubcommandRule _ _ subrules _ =>
      [rule] :: List.map (cons rule) (List.flat_map subcommand_paths_rule subrules)
  | _ => []
  end.

Definition subcommand_paths (rules : list CliRule) : list (list CliRule) :=
  List.flat_map subcommand_paths_rule rules.

(** The entry of the last subcommand of a chain: [_subcommand_help] along
    the chain, the entry of each subcommand being the parent of the next. *)
Fixpoint entry_of_path (parent : option _OptionHelp) (path : list CliRule)
  : option _OptionHelp :=
  match path with
  | [] => parent
  | rule :: path' => entry_of_path (Some (_subcommand_help rule parent)) path'
  end.

(** The keywords of a rule as the help shows them for a subcommand. *)
Definition keywords_label (rule : CliRule) : string :=
  join "|" (sorted_keywords (keywords_of rule)).

(** The lines [__helpers_output] adds for the entries [helps]. *)
Definition entry_lines (helps : list _OptionHelp) : list string :=
  match __helpers_output helps [] with
  | Ok lines => lines
  | Raise _ => []
  end.

(** What a positional argument adds to the usage line. *)
Definition usage_argument (rule : CliRule) : string :=
  if required_of rule then " " +:+ _argument_var_name rule
  else " [" +:+ _argument_var_name rule +:+ "]".

(** What an all-arguments rule adds to the usage line. *)
Definition usage_rest (rule : CliRule) : string :=
  " [" +:+ fmt (name_of rule) +:+ "...]".

Definition concat_strings (l : list string) : string :=
  List.fold_right String.append "" l.

(** ** Rules of the test suite *)

(** [parameter('param', choices=['42'], strict_choices=True)] *)
Definition static_42 : ValueRule :=
  mkValueRule TNone VNone false false (CList [VStr "42"]) true None.

(** [parameter('param', choices=complete, strict_choices=True)] with
    [complete] returning [['42']] *)
Definition producer_42 : ValueRule :=
  mkValueRule TNone VNone false false (CFunction 0 (fun _ => Ok [VStr "42"])) true None.

(** A value rule with every option left out. *)
Definition plain : ValueRule :=
  mkValueRule TNone VNone false false CUnset false None.

(** [parameter('--param', '-p')] *)
Definition param_p : CliRule := ParameterRule ["--param"; "-p"] None plain.

(** [subcommand('remote', 'rm')], the set iterating as [remote], [rm]. *)
Definition remote_rm : CliRule := SubcommandRule ["remote"; "rm"] None [] None.

(** [subcommand('run', run=print_param)] *)
Definition run_command : CliRule := SubcommandRule ["run"] None [] (Some "print_param").

(** [parameter('param', multiple=True, type=int)] *)
Definition multi_int : ValueRule :=
  mkValueRule (TCallable py_int) VNone false true CUnset false None.

(** [parameter('--param', required=True)] *)
Definition required_plain : ValueRule :=
  mkValueRule TNone VNone true false CUnset false None.

(** The sequence a binding holds: that of a [multiple] variable, the empty
    one for no binding. *)
Definition sequence_of (old : option Value) : list Value :=
  match old with
  | Some (VList l) => l
  | _ => []
  end.

(** The binding of a [multiple] variable after the values [values] were
    appended to it; no value, no change. *)
Definition extended (old : option Value) (values : list Value) : option Value :=
  match values with
  | [] => old
  | _ => Some (VList (sequence_of old ++ values))
  end.

(** The rule [rule] binds the variable [var] only by being a parameter with
    the value rule [v]: no flag, positional argument or catch-all has that
    variable, and a parameter that has it has that value rule. *)
Definition binds_through (var : string) (v : ValueRule) (rule : CliRule) : Prop :=
  match rule with
  | SubcommandRule _ _ _ _ => True
  | ParameterRule _ _ v' => var_name_of rule = var -> v' = v
  | PositionalArgumentRule name _ => name <> var
  | AllArgumentsRule name => name <> var
  | _ => var_name_of rule <> var
  end.

(** The same of a rule and of all the rules below it. *)
Fixpoint binds_through_tree (var : string) (v : ValueRule) (rule : CliRule) : Prop :=
  binds_through var v rule /\
  match rule with
  | SubcommandRule _ _ subrules _ =>
      (fix all (rules : list CliRule) : Prop :=
         match rules with
         | [] => True
         | r :: rules' => binds_through_tree var v r /\ all rules'
         end) subrules
  | _ => True
  end.

(** The raw values that the tokens [toks] supply for the variable [var], in
    the order of the tokens, when read from the scope [stack] with the
    positional cursor [cursor]: the token after a keyword of a parameter of
    that variable, or the text after the [=] of such a keyword; tokens read
    as subcommands, flags, values of other parameters, positional arguments
    or by a catch-all supply none. *)
Fixpoint supplied (dry : bool) (root : list CliRule) (var : string)
    (stack : list CliRule) (cursor : nat) (toks : list string) {struct toks}
  : list string :=
  match toks with
  | [] => []
  | tok :: rest =>
      let rules := reachable_rules root stack in
      let st := mkParserState stack ∅ cursor [] in
      match find_subcommand rules tok with
      | Some sub => supplied dry root var (stack ++ [sub]) 0 rest
      | None =>
      match find_flag_token rules tok with
      | Some _ => supplied dry root var stack cursor rest
      | None =>
      match find_parameter rules tok with
      | Some (var', _) =>
          match rest with
          | [] => []
          | raw :: rest' =>
              (if String.eqb var' var then [raw] else [])
              ++ supplied dry root var stack cursor rest'
          end
      | None =>
      match find_parameter_embedded rules tok with
      | Some (var', _, raw) =>
          (if String.eqb var' var then [raw] else [])
          ++ supplied dry root var stack cursor rest
      | None =>
      match next_positional root st with
      | Some _ => supplied dry root var stack (S cursor) rest
      | None =>
      match find_all_arguments root st with
      | Some _ => []
      | None => if dry then supplied dry root var stack cursor rest else []
      end end end end end end
  end.

(** [parameter('--param', multiple=True, type=int)] beside [flag('--flag')] *)
Definition flag_and_multi : list CliRule :=
  [FlagRule ["--flag"] None; ParameterRule ["--param"] None multi_int].

(** * Theorems *)

(** C1: coercion of a raw string: with no declared type the raw string comes
    back unchanged; with a declared type or converter the result is that of
    calling it on the raw string; [int] on ['42'] gives the integer 42. *)
Theorem parse_typed_value_spec :
  (forall arg, parse_typed_value TNone arg = Ok (VStr arg)) /\
  (forall f arg, parse_typed_value (TCallable f) arg = f arg) /\
  (forall rule arg,
     parse_value_rule rule arg =
     match rule_type rule with
     | TNone => Ok (VStr arg)
     | t => call_type t arg
     end) /\
  parse_typed_value (TCallable py_int) "42" = Ok (VInt 42).
Proof.
  repeat split.
  intros rule arg. unfold parse_value_rule, parse_typed_value.
  destruct (rule_type rule); reflexivity.
Qed.

(** ** Value coercion *)

(** C2, as stated, fails: [int] raises a [ValueError] on ['abc'], and the
    coercion raises that same [ValueError], which is no [ConversionError]. *)
Lemma conversion_error_counterexample :
  ~ (forall t arg e,
       t <> TNone ->
       call_type t arg = Raise e ->
       exists e', parse_typed_value t arg = Raise e' /\ is_ConversionError e' = true).
Proof.
  intros H.
  destruct (H (TCallable py_int) "abc" _ ltac:(discriminate) eq_refl) as (e' & He & Hc).
  vm_compute in He. injection He as <-. discriminate Hc.
Qed.

(** C2, amended: when calling the declared type or converter on the raw
    string raises, the coercion raises that very exception, unchanged. *)
Theorem parse_typed_value_propagates (t : TypeOrParser) (arg : string) (e : PyExc) :
  t <> TNone ->
  call_type t arg = Raise e ->
  parse_typed_value t arg = Raise e /\
  forall rule, rule_type rule = t -> parse_value_rule rule arg = Raise e.
Proof.
  intros Ht Hcall.
  assert (Hp : parse_typed_value t arg = Raise e).
  { destruct t; [congruence | exact Hcall | exact Hcall]. }
  split; [exact Hp |].
  intros rule <-. exact Hp.
Qed.

Lemma parse_typed_value_propagates_witness :
  parse_typed_value (TCallable py_int) "abc"
  = Raise (ValueError "invalid literal for int() with base 10: 'abc'").
Proof.
  apply (parse_typed_value_propagates (TCallable py_int) "abc"); [discriminate | reflexivity].
Defined.

(** C5: the resolved choices are the declared list when [choices] is a
    list, the result of calling the producer when it is a function without
    arguments, and the empty list when it is unset. *)
Theorem generate_value_choices_spec :
  forall t d req m s h,
    (forall l, generate_value_choices (mkValueRule t d req m (CList l) s h) = Ok l) /\
    (forall body,
       generate_value_choices (mkValueRule t d req m (CFunction 0 body) s h) = body tt) /\
    generate_value_choices (mkValueRule t d req m CUnset s h) = Ok [].
Proof.
  intros. repeat split.
  intros [| x l]; reflexivity.
Qed.

Lemma existsb_str_equals (raw : string) (choices : list Value) :
  existsb (str_equals raw) choices = true <-> In (VStr raw) choices.
Proof.
  rewrite existsb_exists. split.
  - intros (c & Hin & Heq). destruct c; simpl in Heq; try discriminate.
    apply String.eqb_eq in Heq. subst. exact Hin.
  - intros Hin. exists (VStr raw). split; [exact Hin |]. simpl. apply String.eqb_refl.
Qed.

Lemma nonempty_true {A : Type} (l : list A) : l <> [] -> nonempty l = true.
Proof. destruct l; [congruence | reflexivity]. Qed.

Lemma validate_choice_strict (rule : ValueRule) (raw : string) (choices : list Value) :
  rule_strict_choices rule = true ->
  generate_value_choices rule = Ok choices ->
  choices <> [] ->
  (~ In (VStr raw) choices ->
     validate_choice rule raw = Raise (CliError ChoiceViolation raw) /\
     parse_argument_value rule raw = Raise (CliError ChoiceViolation raw)) /\
  (In (VStr raw) choices ->
     validate_choice rule raw = Ok tt /\
     parse_argument_value rule raw = parse_value_rule rule raw).
Proof.
  intros Hs Hg Hne.
  unfold parse_argument_value, validate_choice. rewrite Hs, Hg. simpl.
  rewrite (nonempty_true _ Hne). simpl.
  split; intros Hin.
  - assert (Hex : existsb (str_equals raw) choices = false).
    { apply not_true_is_false. rewrite existsb_str_equals. exact Hin. }
    rewrite Hex. simpl. split; reflexivity.
  - apply existsb_str_equals in Hin. rewrite Hin. simpl. split; reflexivity.
Qed.

(** ** Keyword ordering and names in the help *)

#[global] Instance keyword_le_total : Total keyword_le.
Proof.
  intros a b. unfold keyword_le, keyword_leb.
  destruct (Nat.ltb_spec (String.length a) (String.length b)) as [Hab | Hab];
    [left; exact I |].
  destruct (Nat.ltb_spec (String.length b) (String.length a)) as [Hba | Hba];
    [right; exact I |].
  assert (Heq : String.length a = String.length b) by lia.
  rewrite Heq, Nat.eqb_refl. simpl.
  destruct (String.leb_total a b) as [-> | ->]; [left | right]; exact I.
Qed.

#[global] Instance keyword_le_trans : Transitive keyword_le.
Proof.
  intros a b c. unfold keyword_le, keyword_leb.
  destruct (Nat.ltb_spec (String.length a) (String.length b)) as [Hab | Hab];
    destruct (Nat.ltb_spec (String.length b) (String.length c)) as [Hbc | Hbc];
    destruct (Nat.ltb_spec (String.length a) (String.length c)) as [Hac | Hac];
    simpl; try (intros; exact I); try lia;
    destruct (Nat.eqb_spec (String.length a) (String.length b));
    destruct (Nat.eqb_spec (String.length b) (String.length c));
    destruct (Nat.eqb_spec (String.length a) (String.length c));
    simpl; try tauto; try lia.
  intros H1 H2. exact (transitivity (R := String.le) H1 H2).
Qed.

#[global] Instance keyword_le_antisym : AntiSymm (=) keyword_le.
Proof.
  intros a b. unfold keyword_le, keyword_leb.
  destruct (Nat.ltb_spec (String.length a) (String.length b)) as [Hab | Hab];
    destruct (Nat.ltb_spec (String.length b) (String.length a)) as [Hba | Hba];
    simpl; try lia;
    destruct (Nat.eqb_spec (String.length a) (String.length b));
    destruct (Nat.eqb_spec (String.length b) (String.length a));
    simpl; try tauto; try lia.
  intros H1 H2. exact (anti_symm String.le a b H1 H2).
Qed.

(** [sorted_keywords] arranges the same keywords shortest first, equal
    lengths alphabetically, whatever order the set iterates in. *)
Lemma sorted_keywords_ordered (keywords : list string) :
  sorted_keywords keywords ≡ₚ keywords /\
  StronglySorted keyword_le (sorted_keywords keywords) /\
  forall keywords', keywords' ≡ₚ keywords ->
    sorted_keywords keywords' = sorted_keywords keywords.
Proof.
  unfold sorted_keywords. split; [apply merge_sort_Permutation |].
  split; [apply StronglySorted_merge_sort; apply _ |].
  intros keywords' Hp.
  apply (StronglySorted_unique keyword_le);
    try (apply StronglySorted_merge_sort; apply _).
  rewrite !merge_sort_Permutation. exact Hp.
Qed.

(** C3: for the subcommand with keywords [remote] and [rm], the set
    iterating in that order, the short name used for the scope path is
    [remote], while the ordering of [sorted_keywords] puts [rm] first; the
    usage line of the help generated for the arguments [rm] starts with
    [app remote]. *)
Theorem subcommand_short_name_not_shortest :
  _subcommand_short_name remote_rm = Ok "remote" /\
  head (sorted_keywords (keywords_of remote_rm)) = Some "rm" /\
  (generate_help parse_args names_from_keywords "app" [remote_rm] None None None ["rm"])
  = Ok ["Usage:" +:+ nl +:+ "  app remote [COMMAND]";
        nl +:+ "Commands:";
        "  rm|remote";
        nl +:+ "Run " +:+ dquote +:+ "app remote COMMAND --help" +:+ dquote
           +:+ " for more information on a command."].
Proof. repeat split; vm_compute; reflexivity. Qed.

Lemma max_by_len_from_spec (names : list string) : forall best,
  In (max_by_len_from best names) (best :: names) /\
  Forall (fun m => String.length m <= String.length (max_by_len_from best names))
    (best :: names).
Proof.
  induction names as [| n names IH]; intros best; simpl.
  - split; [left; reflexivity | repeat constructor].
  - destruct (Nat.ltb_spec (String.length best) (String.length n)) as [Hlt | Hge].
    + destruct (IH n) as [Hin Hall]. split.
      * right. exact Hin.
      * apply Forall_cons_1 in Hall as Hall'. destruct Hall' as [Hn Hrest].
        constructor; [lia | exact Hall].
    + destruct (IH best) as [Hin Hall]. split.
      * destruct Hin as [<- | Hin]; [left; reflexivity | right; right; exact Hin].
      * apply Forall_cons_1 in Hall as Hall'. destruct Hall' as [Hb Hrest].
        constructor; [exact Hb |]. constructor; [lia | exact Hrest].
Qed.



(** ** Help generation and errors of the resolver *)

Lemma no_CliError_Ok {A : Type} (a : A) : no_CliError (Ok a).
Proof. intros e He. discriminate He. Qed.

Lemma no_CliError_bind {A B : Type} (m : PyResult A) (f : A -> PyResult B) :
  no_CliError m -> (forall a, no_CliError (f a)) -> no_CliError (m ≫= f).
Proof.
  intros Hm Hf e He. destruct m as [a | e0]; simpl in He.
  - exact (Hf a e He).
  - injection He as <-. apply Hm. reflexivity.
Qed.

Lemma no_CliError_fmap {A B : Type} (m : PyResult A) (f : A -> B) :
  no_CliError m -> no_CliError (f <$> m).
Proof.
  intros Hm e He. destruct m as [a | e0]; simpl in He; [discriminate He |].
  injection He as <-. apply Hm. reflexivity.
Qed.

Lemma no_CliError_map_result {A B : Type} (f : A -> PyResult B) (l : list A) :
  (forall x, no_CliError (f x)) -> no_CliError (map_result f l).
Proof.
  intros Hf. induction l as [| x l IH]; simpl.
  - apply no_CliError_Ok.
  - apply no_CliError_bind; [apply Hf |]. intros y.
    apply no_CliError_bind; [exact IH |]. intros ys. apply no_CliError_Ok.
Qed.

Lemma no_CliError_max_by_len (names : list string) : no_CliError (max_by_len names).
Proof. destruct names; intros e He; [injection He as <-; reflexivity | discriminate He]. Qed.

Lemma no_CliError_helpers_output (commands : list _OptionHelp) (out : list string) :
  no_CliError (__helpers_output commands out).
Proof.
  unfold __helpers_output. apply no_CliError_bind; [| intros; apply no_CliError_Ok].
  unfold _max_name_width. destruct (List.map _ commands); intros e He;
    [injection He as <-; reflexivity | discriminate He].
Qed.

Section HelpFacts.

Variable names_of : list string -> list string.
Variable argv0 : string.

Lemma no_CliError_generate_option_help (rule : CliRule) :
  no_CliError (_generate_option_help names_of rule).
Proof.
  unfold _generate_option_help.
  destruct (isinstance rule PrimaryOptionRuleT); [apply no_CliError_Ok |].
  destruct (isinstance rule FlagRuleT); [apply no_CliError_Ok |].
  destruct (isinstance rule ParameterRuleT); [| apply no_CliError_Ok].
  apply no_CliError_fmap. unfold _parameter_help.
  apply no_CliError_bind; [| intros; apply no_CliError_Ok].
  unfold _param_var_name. destruct (truthy_str (name_of rule)); [apply no_CliError_Ok |].
  apply no_CliError_fmap, no_CliError_max_by_len.
Qed.

Lemma no_CliError_generate_subcommand_help subrules all_rules app_name version help pre :
  no_CliError
    (generate_subcommand_help names_of argv0 subrules all_rules app_name version help pre).
Proof.
  unfold generate_subcommand_help. cbv zeta.
  apply no_CliError_bind.
  { unfold _generate_options_helps.
    apply no_CliError_bind; [| intros; apply no_CliError_Ok].
    apply no_CliError_map_result, no_CliError_generate_option_help. }
  intros options. apply no_CliError_bind.
  { destruct (nonempty options);
      [apply no_CliError_helpers_output | apply no_CliError_Ok]. }
  intros out. apply no_CliError_bind; [| intros; apply no_CliError_Ok].
  destruct (nonempty _); [| apply no_CliError_Ok].
  apply no_CliError_bind; [apply no_CliError_helpers_output |].
  intros; apply no_CliError_Ok.
Qed.

End HelpFacts.

(** C9: [generate_help] raises no [CliError], whatever the resolver does;
    when the dry pass of the resolver raises a [CliError], the result is the
    help of the root rules with an empty path of subcommands. *)
Theorem generate_help_catches_CliError :
  forall (parser : list CliRule -> bool -> list string -> PyResult RunContext)
         (names_of : list string -> list string) (argv0 : string)
         rules app_name version help subargs,
    no_CliError (generate_help parser names_of argv0 rules app_name version help subargs) /\
    (forall e,
       parser rules true subargs = Raise e ->
       is_CliError e = true ->
       generate_help parser names_of argv0 rules app_name version help subargs
       = generate_subcommand_help names_of argv0 rules rules app_name version help []).
Proof.
  intros. split.
  - unfold generate_help.
    destruct (parser rules true subargs) as [ctx | e0]; simpl.
    + destruct (map_result _subcommand_short_name (active_subcommands ctx))
        as [pre | e1] eqn:Hpre; simpl.
      * apply no_CliError_generate_subcommand_help.
      * assert (Hno : no_CliError (map_result _subcommand_short_name (active_subcommands ctx))).
        { apply no_CliError_map_result. intros rule e He.
          unfold _subcommand_short_name in He.
          destruct (has_keywords rule); [destruct (keywords_of rule) |];
            try discriminate He; injection He as <-; reflexivity. }
        rewrite (Hno e1 Hpre). intros e He. injection He as <-. exact (Hno e1 Hpre).
    + destruct (is_CliError e0) eqn:He0.
      * apply no_CliError_generate_subcommand_help.
      * intros e He. injection He as <-. exact He0.
  - intros e Hp He. unfold generate_help. rewrite Hp. simpl. rewrite He. reflexivity.
Qed.

Lemma generate_help_catches_CliError_witness :
  generate_help parse_args names_from_keywords "app" [param_p] None None None ["--param"]
  = generate_subcommand_help names_from_keywords "app" [param_p] [param_p] None None None [].
Proof.
  destruct (generate_help_catches_CliError parse_args names_from_keywords "app"
              [param_p] None None None ["--param"]) as [_ H].
  apply (H (CliError MissingValue "--param")); reflexivity.
Defined.

(** ** The two forms of a parameter *)

Lemma append_cons (c : ascii) (s t : string) : String c s +:+ t = String c (s +:+ t).
Proof. reflexivity. Qed.

Lemma split_equals_append (k raw : string) :
  split_equals k = None -> split_equals (k +:+ "=" +:+ raw) = Some (k, raw).
Proof.
  induction k as [| c k IH]; intros Hk.
  - reflexivity.
  - rewrite append_cons. simpl in *.
    destruct (Ascii.eqb c "="); [discriminate Hk |].
    destruct (split_equals k) as [[key value] |]; [discriminate Hk |].
    rewrite IH; reflexivity.
Qed.

Lemma has_keyword_In (tok : string) (rule : CliRule) :
  has_keyword tok rule = true -> In tok (keywords_of rule).
Proof.
  unfold has_keyword. rewrite existsb_exists.
  intros (k & Hin & Heq). apply String.eqb_eq in Heq. subst. exact Hin.
Qed.

Lemma equals_free_keyword (rules : list CliRule) (rule : CliRule) (tok : string) :
  equals_free rules -> In rule rules -> has_keyword tok rule = true ->
  split_equals tok = None.
Proof.
  intros Hfree Hin Hkw. unfold equals_free in Hfree.
  rewrite List.Forall_forall in Hfree. specialize (Hfree rule Hin).
  rewrite List.Forall_forall in Hfree. apply Hfree, has_keyword_In, Hkw.
Qed.

Lemma find_guarded_None (rules : list CliRule) (tok : string) (cls : CliRule -> bool) :
  (forall rule, In rule rules -> has_keyword tok rule = false) ->
  List.find (fun rule => cls rule && has_keyword tok rule) rules = None.
Proof.
  intros H. induction rules as [| r rules IH]; [reflexivity |]. simpl.
  rewrite (H r (or_introl eq_refl)), andb_false_r.
  apply IH. intros rule Hin. apply H. right. exact Hin.
Qed.

Lemma find_parameter_None (rules : list CliRule) (tok : string) :
  (forall rule, In rule rules -> has_keyword tok rule = false) ->
  find_parameter rules tok = None.
Proof.
  intros H. unfold find_parameter.
  induction rules as [| r rules IH]; [reflexivity |]. simpl.
  assert (Hr : as_parameter tok r = None).
  { destruct r; try reflexivity. unfold as_parameter.
    rewrite (H _ (or_introl eq_refl)). reflexivity. }
  rewrite Hr. apply IH. intros rule Hin. apply H. right. exact Hin.
Qed.

Lemma find_parameter_Some (rules : list CliRule) (tok var : string) (v : ValueRule) :
  find_parameter rules tok = Some (var, v) ->
  exists rule, In rule rules /\ has_keyword tok rule = true.
Proof.
  unfold find_parameter. induction rules as [| r rules IH]; [discriminate |]. simpl.
  destruct (as_parameter tok r) as [p |] eqn:Hr.
  - intros _. exists r. split; [left; reflexivity |].
    destruct r; try discriminate Hr. unfold as_parameter in Hr.
    destruct (has_keyword tok _); [reflexivity | discriminate Hr].
  - intros H. destruct (IH H) as (rule & Hin & Hkw).
    exists rule. split; [right; exact Hin | exact Hkw].
Qed.

Lemma with_equals_unmatched (rules : list CliRule) (k raw : string) :
  equals_free rules -> split_equals k = None ->
  forall rule, In rule rules -> has_keyword (k +:+ "=" +:+ raw) rule = false.
Proof.
  intros Hfree Hk rule Hin.
  destruct (has_keyword (k +:+ "=" +:+ raw) rule) eqn:Hkw; [| reflexivity].
  pose proof (equals_free_keyword _ _ _ Hfree Hin Hkw) as Hnone.
  rewrite (split_equals_append k raw Hk) in Hnone. discriminate Hnone.
Qed.

Section TwoForms.

Variables (dry : bool) (root : list CliRule) (st : ParserState).
Variables (k var : string) (v : ValueRule).

Let rules := reachable_rules root (scope_stack st).

Hypothesis Hfree : equals_free rules.
Hypothesis Hparam : resolves_to_parameter rules k var v.

Lemma parameter_keyword_plain : split_equals k = None.
Proof.
  destruct Hparam as (_ & _ & Hp).
  destruct (find_parameter_Some _ _ _ _ Hp) as (rule & Hin & Hkw).
  exact (equals_free_keyword _ _ _ Hfree Hin Hkw).
Qed.

Lemma consume_two_tokens (raw : string) (rest : list string) :
  consume dry root st (k :: raw :: rest) =
  match bind_value var v raw st with
  | Ok st' => consume dry root st' rest
  | Raise e => Raise e
  end.
Proof.
  destruct Hparam as (Hs & Hf & Hp). simpl. fold rules.
  rewrite Hs. unfold find_flag_token. rewrite Hf, parameter_keyword_plain, Hp.
  reflexivity.
Qed.

Lemma consume_with_equals (raw : string) (rest : list string) :
  consume dry root st ((k +:+ "=" +:+ raw) :: rest) =
  match bind_value var v raw st with
  | Ok st' => consume dry root st' rest
  | Raise e => Raise e
  end.
Proof.
  destruct Hparam as (Hs & Hf & Hp).
  pose proof (with_equals_unmatched rules k raw Hfree parameter_keyword_plain) as Hun.
  simpl. fold rules.
  unfold find_subcommand, find_flag_token, find_flag, find_parameter_embedded.
  rewrite (find_guarded_None _ _ _ Hun).
  rewrite (find_guarded_None _ _ (fun rule =>
             isinstance rule FlagRuleT || isinstance rule PrimaryOptionRuleT) Hun).
  rewrite (split_equals_append k raw parameter_keyword_plain).
  fold (find_flag rules k). rewrite Hf.
  rewrite (find_parameter_None _ _ Hun), Hp. reflexivity.
Qed.

End TwoForms.

(** C6: at any point of a pass where the token [k] is read as a keyword of
    a parameter, the single token [k=raw] and the two tokens [k], [raw] give
    the same result of the resolution: the same bindings or the same
    failure. *)
Theorem equals_form_equivalent
    (dry : bool) (root : list CliRule) (st : ParserState)
    (k var : string) (v : ValueRule) (raw : string) (rest : list string) :
  equals_free (reachable_rules root (scope_stack st)) ->
  resolves_to_parameter (reachable_rules root (scope_stack st)) k var v ->
  resolve_from dry root st ((k +:+ "=" +:+ raw) :: rest)
  = resolve_from dry root st (k :: raw :: rest).
Proof.
  intros Hfree Hparam. unfold resolve_from.
  rewrite (consume_with_equals dry root st k var v Hfree Hparam).
  rewrite (consume_two_tokens dry root st k var v Hfree Hparam).
  reflexivity.
Qed.

Lemma equals_form_equivalent_witness :
  resolve_from false [run_command; param_p] (push_scope run_command initial_state) ["-p=OK"]
  = resolve_from false [run_command; param_p] (push_scope run_command initial_state)
      ["-p"; "OK"].
Proof.
  apply (equals_form_equivalent false [run_command; param_p]
           (push_scope run_command initial_state) "-p" "param" plain "OK" []).
  - repeat constructor.
  - repeat split; reflexivity.
Defined.

(** ** Parameters given several times *)

Lemma map_result_cons_Ok {A B : Type} (f : A -> PyResult B) x l ys :
  map_result f (x :: l) = Ok ys ->
  exists y ys', f x = Ok y /\ map_result f l = Ok ys' /\ ys = y :: ys'.
Proof.
  simpl. destruct (f x) as [y | e]; simpl; [| discriminate].
  destruct (map_result f l) as [ys' | e]; simpl; [| discriminate].
  intros H. injection H as <-. exists y, ys'. repeat split.
Qed.

Lemma map_result_length {A B : Type} (f : A -> PyResult B) l : forall ys,
  map_result f l = Ok ys -> List.length ys = List.length l.
Proof.
  induction l as [| x l IH]; intros ys H.
  - injection H as <-. reflexivity.
  - apply map_result_cons_Ok in H as (y & ys' & _ & Hl & ->).
    simpl. f_equal. apply IH, Hl.
Qed.

Section Occurrences.

Variables (dry : bool) (root : list CliRule) (stack : list CliRule).
Variables (var : string) (v : ValueRule).

Let rules := reachable_rules root stack.

Hypothesis Hmultiple : rule_multiple v = true.
Hypothesis Hfree : equals_free rules.

Lemma consume_occurrences (occs : list Occurrence) :
  forall b cursor primary acc values,
    Forall (fun o => resolves_to_parameter rules (occ_keyword o) var v) occs ->
    map_result (parse_argument_value v) (occ_raw <$> occs) = Ok values ->
    b !! var = Some (VList acc) \/ (acc = [] /\ b !! var = None) ->
    consume dry root (mkParserState stack b cursor primary) (List.concat (tokens_of <$> occs))
    = Ok (mkParserState stack (appended var acc values b) cursor primary).
Proof.
  induction occs as [| o occs IH]; intros b cursor primary acc values Hres Hvals Hold.
  - injection Hvals as <-. reflexivity.
  - apply Forall_cons_1 in Hres as [Ho Hres].
    rewrite fmap_cons in Hvals.
    apply map_result_cons_Ok in Hvals as (y & ys & Hy & Hys & ->).
    rewrite fmap_cons. simpl List.concat.
    assert (Hstep : forall rest,
              consume dry root (mkParserState stack b cursor primary) (tokens_of o ++ rest)
              = consume dry root
                  (mkParserState stack (<[var := VList (acc ++ [y])]> b) cursor primary)
                  rest).
    { intros rest.
      assert (Hbind : bind_value var v (occ_raw o) (mkParserState stack b cursor primary)
                      = Ok (mkParserState stack (<[var := VList (acc ++ [y])]> b)
                              cursor primary)).
      { unfold bind_value. rewrite Hy. simpl. rewrite Hmultiple. simpl.
        destruct Hold as [-> | [-> ->]]; reflexivity. }
      destruct o as [k raw | k raw]; simpl tokens_of; simpl app.
      - rewrite (consume_two_tokens dry root (mkParserState stack b cursor primary)
                   k var v Hfree Ho).
        simpl in Hbind. rewrite Hbind. reflexivity.
      - rewrite (consume_with_equals dry root (mkParserState stack b cursor primary)
                   k var v Hfree Ho).
        simpl in Hbind. rewrite Hbind. reflexivity. }
    rewrite Hstep.
    rewrite (IH _ cursor primary (acc ++ [y]) ys Hres Hys).
    + f_equal. f_equal. unfold appended. destruct ys as [| y' ys].
      * reflexivity.
      * rewrite insert_insert_eq, <- app_assoc. reflexivity.
    + left. apply lookup_insert_eq.
Qed.

End Occurrences.

(** ** End of input *)

Lemma apply_defaults_bound (rules : list CliRule) : forall b x y,
  b !! x = Some y -> apply_defaults rules b !! x = Some y.
Proof.
  induction rules as [| r rules IH]; intros b x y Hb; [exact Hb |]. simpl.
  apply IH. destruct (default_binding r) as [[x0 d0] |]; [| exact Hb].
  destruct (b !! x0) eqn:Hx0; [exact Hb |].
  rewrite lookup_insert_ne; [exact Hb |]. intros ->. congruence.
Qed.

Lemma bound_variables_In (rules : list CliRule) (rule : CliRule) x d :
  In rule rules -> default_binding rule = Some (x, d) -> x ∈ bound_variables rules.
Proof.
  intros Hin Hd. unfold bound_variables. apply list_elem_of_omap.
  exists rule. split; [apply list_elem_of_In, Hin |]. rewrite Hd. reflexivity.
Qed.

Lemma apply_defaults_unbound (rules : list CliRule) : forall b rule x d,
  NoDup (bound_variables rules) ->
  In rule rules ->
  default_binding rule = Some (x, d) ->
  b !! x = None ->
  apply_defaults rules b !! x = Some d.
Proof.
  induction rules as [| r rules IH]; intros b rule x d Hnd Hin Hd Hb; [destruct Hin |].
  simpl. destruct Hin as [-> | Hin].
  - rewrite Hd, Hb. apply apply_defaults_bound, lookup_insert_eq.
  - unfold bound_variables in Hnd. simpl in Hnd. fold (bound_variables rules) in Hnd.
    destruct (default_binding r) as [[x0 d0] |] eqn:Hr; simpl in Hnd.
    + apply NoDup_cons in Hnd as [Hx0 Hnd].
      assert (Hne : x0 <> x).
      { intros ->. apply Hx0. exact (bound_variables_In _ _ _ _ Hin Hd). }
      apply (IH _ rule); try assumption.
      destruct (b !! x0); [exact Hb |]. rewrite lookup_insert_ne; assumption.
    + apply (IH _ rule); assumption.
Qed.

Lemma resolve_from_strict (root : list CliRule) (st0 st : ParserState) (toks : list string) :
  consume false root st0 toks = Ok st ->
  resolve_from false root st0 toks = finalize root st.
Proof. intros H. unfold resolve_from. rewrite H. reflexivity. Qed.

(** ** Strict choices in a pass *)

Section StrictChoices.

Variables (dry : bool) (root : list CliRule) (st : ParserState).
Variables (k var : string) (v : ValueRule) (raw : string) (choices : list Value).

Hypothesis Hstrict : rule_strict_choices v = true.
Hypothesis Hchoices : generate_value_choices v = Ok choices.
Hypothesis Hnonempty : choices <> [].
Hypothesis Hfree : equals_free (reachable_rules root (scope_stack st)).
Hypothesis Hparam : resolves_to_parameter (reachable_rules root (scope_stack st)) k var v.

Lemma bind_value_absent :
  ~ In (VStr raw) choices ->
  bind_value var v raw st = Raise (CliError ChoiceViolation raw).
Proof.
  intros Hin. unfold bind_value.
  destruct (validate_choice_strict v raw choices Hstrict Hchoices Hnonempty) as [Habs _].
  destruct (Habs Hin) as [_ ->]. reflexivity.
Qed.

Lemma bind_value_present (value : Value) :
  In (VStr raw) choices ->
  parse_value_rule v raw = Ok value ->
  bind_value var v raw st = Ok (with_value st var v value).
Proof.
  intros Hin Hvalue. unfold bind_value.
  destruct (validate_choice_strict v raw choices Hstrict Hchoices Hnonempty) as [_ Hpres].
  destruct (Hpres Hin) as [_ ->]. rewrite Hvalue. reflexivity.
Qed.

Lemma resolve_absent (rest : list string) :
  ~ In (VStr raw) choices ->
  resolve_from dry root st (k :: raw :: rest) = Raise (CliError ChoiceViolation raw) /\
  resolve_from dry root st ((k +:+ "=" +:+ raw) :: rest)
  = Raise (CliError ChoiceViolation raw).
Proof.
  intros Hin. unfold resolve_from.
  rewrite (consume_two_tokens dry root st k var v Hfree Hparam).
  rewrite (consume_with_equals dry root st k var v Hfree Hparam).
  rewrite (bind_value_absent Hin). split; reflexivity.
Qed.

Lemma resolve_present (value : Value) (rest : list string) :
  In (VStr raw) choices ->
  parse_value_rule v raw = Ok value ->
  resolve_from dry root st (k :: raw :: rest)
  = resolve_from dry root (with_value st var v value) rest /\
  resolve_from dry root st ((k +:+ "=" +:+ raw) :: rest)
  = resolve_from dry root (with_value st var v value) rest.
Proof.
  intros Hin Hvalue. unfold resolve_from.
  rewrite (consume_two_tokens dry root st k var v Hfree Hparam).
  rewrite (consume_with_equals dry root st k var v Hfree Hparam).
  rewrite (bind_value_present value Hin Hvalue). split; reflexivity.
Qed.

Lemma resolve_bound (value : Value) :
  List.find (is_missing (st_bindings (with_value st var v value)))
    (reachable_rules root (scope_stack st)) = None ->
  exists ctx,
    resolve_from dry root (with_value st var v value) [] = Ok ctx /\
    bindings ctx !! var
    = Some (accumulate (rule_multiple v) (st_bindings st !! var) value).
Proof.
  intros Hfind. unfold resolve_from. simpl. destruct dry.
  - eexists. split; [reflexivity |]. simpl. apply lookup_insert_eq.
  - unfold finalize. simpl in *. rewrite Hfind. eexists. split; [reflexivity |].
    simpl. apply apply_defaults_bound, lookup_insert_eq.
Qed.

End StrictChoices.

(** C4: with [strict_choices] set and a non-empty resolved choice list, a
    pass that reads a raw value for the parameter, in either form, fails with
    a [ChoiceViolation] when the raw string is absent from the list (as a
    string, before coercion); when it is present the validation lets it
    through to the coercion, the coerced value is bound and the pass goes on,
    succeeding when no token is left and nothing required is missing;
    [choices=['42']] rejects ['4'] and accepts ['42'], as a list and as a
    producer. *)
Theorem strict_choices_spec :
  (forall rule raw choices,
     rule_strict_choices rule = true ->
     generate_value_choices rule = Ok choices ->
     choices <> [] ->
     (~ In (VStr raw) choices ->
        validate_choice rule raw = Raise (CliError ChoiceViolation raw) /\
        parse_argument_value rule raw = Raise (CliError ChoiceViolation raw)) /\
     (In (VStr raw) choices ->
        validate_choice rule raw = Ok tt /\
        parse_argument_value rule raw = parse_value_rule rule raw)) /\
  (forall dry root st k var v raw choices rest,
     rule_strict_choices v = true ->
     generate_value_choices v = Ok choices ->
     choices <> [] ->
     equals_free (reachable_rules root (scope_stack st)) ->
     resolves_to_parameter (reachable_rules root (scope_stack st)) k var v ->
     (~ In (VStr raw) choices ->
        resolve_from dry root st (k :: raw :: rest) = Raise (CliError ChoiceViolation raw) /\
        resolve_from dry root st ((k +:+ "=" +:+ raw) :: rest)
        = Raise (CliError ChoiceViolation raw)) /\
     (In (VStr raw) choices ->
        forall value,
          parse_value_rule v raw = Ok value ->
          resolve_from dry root st (k :: raw :: rest)
          = resolve_from dry root (with_value st var v value) rest /\
          resolve_from dry root st ((k +:+ "=" +:+ raw) :: rest)
          = resolve_from dry root (with_value st var v value) rest /\
          (List.find (is_missing (st_bindings (with_value st var v value)))
             (reachable_rules root (scope_stack st)) = None ->
           exists ctx,
             resolve_from dry root (with_value st var v value) [] = Ok ctx /\
             bindings ctx !! var
             = Some (accumulate (rule_multiple v) (st_bindings st !! var) value)))) /\
  (forall rule,
     rule = static_42 \/ rule = producer_42 ->
     (exists e, parse_args [ParameterRule ["--param"] None rule] false ["--param=4"] = Raise e
                /\ is_ChoiceViolation e = true) /\
     (exists ctx, parse_args [ParameterRule ["--param"] None rule] false ["--param=42"] = Ok ctx
                  /\ bindings ctx !! "param" = Some (VStr "42"))).
Proof.
  split; [intros rule raw choices; apply validate_choice_strict |]. split.
  - intros dry root st k var v raw choices rest Hs Hc Hne Hfree Hparam. split.
    + apply (resolve_absent dry root st k var v raw choices Hs Hc Hne Hfree Hparam).
    + intros Hin value Hvalue.
      destruct (resolve_present dry root st k var v raw choices Hs Hc Hne Hfree Hparam
                  value rest Hin Hvalue) as [H1 H2].
      split; [exact H1 |]. split; [exact H2 |].
      apply resolve_bound.
  - intros rule [-> | ->]; split; eexists; split; vm_compute; reflexivity.
Qed.

Lemma strict_choices_spec_witness :
  resolve_from false [ParameterRule ["--param"] None static_42] initial_state
    ["--param"; "5"; "--param=42"] = Raise (CliError ChoiceViolation "5") /\
  resolve_from false [ParameterRule ["--param"] None static_42] initial_state ["--param=5"]
  = Raise (CliError ChoiceViolation "5").
Proof.
  destruct strict_choices_spec as (_ & H & _).
  destruct (H false [ParameterRule ["--param"] None static_42] initial_state
              "--param" "param" static_42 "5" [VStr "42"]) with (rest := ["--param=42"])
    as [Habs _]; try reflexivity; try discriminate.
  - repeat constructor.
  - repeat split; reflexivity.
  - destruct (H false [ParameterRule ["--param"] None static_42] initial_state
                "--param" "param" static_42 "5" [VStr "42"]) with (rest := @nil string)
      as [Habs' _]; try reflexivity; try discriminate.
    + repeat constructor.
    + repeat split; reflexivity.
    + assert (Hno : ~ In (VStr "5") [VStr "42"]) by (intros [Heq | []]; discriminate Heq).
      split; [apply (Habs Hno) | apply (Habs' Hno)].
Defined.

Lemma occurrences_sequence
    (root : list CliRule) (st : ParserState)
    (keywords : list string) (name : option string) (v : ValueRule)
    (occs : list Occurrence) (values : list Value) :
  rule_multiple v = true ->
  In (ParameterRule keywords name v) (reachable_rules root (scope_stack st)) ->
  NoDup (bound_variables (reachable_rules root (scope_stack st))) ->
  equals_free (reachable_rules root (scope_stack st)) ->
  Forall (fun o => resolves_to_parameter (reachable_rules root (scope_stack st))
                     (occ_keyword o) (var_name_of (ParameterRule keywords name v)) v) occs ->
  map_result (parse_argument_value v) (occ_raw <$> occs) = Ok values ->
  st_bindings st !! var_name_of (ParameterRule keywords name v) = None ->
  List.length values = List.length occs /\
  (forall dry,
     consume dry root st (List.concat (tokens_of <$> occs))
     = Ok (mkParserState (scope_stack st)
             (appended (var_name_of (ParameterRule keywords name v)) [] values
                (st_bindings st))
             (positional_cursor st) (primary_activated st))) /\
  (List.find
     (is_missing (appended (var_name_of (ParameterRule keywords name v)) [] values
                    (st_bindings st)))
     (reachable_rules root (scope_stack st)) = None ->
   exists ctx,
     resolve_from false root st (List.concat (tokens_of <$> occs)) = Ok ctx /\
     bindings ctx !! var_name_of (ParameterRule keywords name v) = Some (VList values)).
Proof.
  intros Hm Hin Hnd Hfree Hocc Hvals Hb.
  assert (Hlen : List.length values = List.length occs).
  { rewrite (map_result_length _ _ _ Hvals). apply length_fmap. }
  assert (Hcons : forall dry,
    consume dry root st (List.concat (tokens_of <$> occs))
    = Ok (mkParserState (scope_stack st)
            (appended (var_name_of (ParameterRule keywords name v)) [] values
               (st_bindings st))
            (positional_cursor st) (primary_activated st))).
  { intros dry. destruct st as [stack b cursor primary]. simpl in *.
    apply (consume_occurrences dry root stack _ v Hm Hfree occs b cursor primary [] values);
      [exact Hocc | exact Hvals | right; split; [reflexivity | exact Hb]]. }
  split; [exact Hlen |]. split; [exact Hcons |].
  intros Hfind. rewrite (resolve_from_strict _ _ _ _ (Hcons false)).
  unfold finalize. simpl. rewrite Hfind. eexists. split; [reflexivity |]. simpl.
  destruct values as [| y ys]; simpl.
  - apply (apply_defaults_unbound _ _ (ParameterRule keywords name v)); try assumption.
    simpl. rewrite Hm. reflexivity.
  - apply apply_defaults_bound, lookup_insert_eq.
Qed.

(** ** A multiple parameter among other tokens *)

Lemma extended_extended (old : option Value) (ys zs : list Value) :
  extended (extended old ys) zs = extended old (ys ++ zs).
Proof.
  destruct ys as [| y ys]; [reflexivity |].
  destruct zs as [| z zs]; simpl.
  - rewrite app_nil_r. reflexivity.
  - rewrite <- app_assoc. reflexivity.
Qed.

Lemma map_result_app {A B : Type} (f : A -> PyResult B) (l1 l2 : list A) ys1 ys2 :
  map_result f l1 = Ok ys1 -> map_result f l2 = Ok ys2 ->
  map_result f (l1 ++ l2) = Ok (ys1 ++ ys2).
Proof.
  revert ys1. induction l1 as [| x l1 IH]; intros ys1 H1 H2.
  - injection H1 as <-. exact H2.
  - apply map_result_cons_Ok in H1 as (y & ys' & Hy & Hl & ->).
    simpl. rewrite Hy. simpl. rewrite (IH ys' Hl H2). reflexivity.
Qed.

Lemma binds_through_tree_subrules (var : string) (v : ValueRule) (rule r : CliRule) :
  binds_through_tree var v rule -> In r (subrules_of rule) -> binds_through_tree var v r.
Proof.
  destruct rule as [kws h subrules run | | | | |]; simpl; try (intros _ []).
  intros [_ Hall]. induction subrules as [| r0 subrules IH]; [intros [] |].
  destruct Hall as [Hr0 Hall]. intros [<- | Hin]; [exact Hr0 | exact (IH Hall Hin)].
Qed.

Lemma binds_through_tree_here (var : string) (v : ValueRule) (rule : CliRule) :
  binds_through_tree var v rule -> binds_through var v rule.
Proof. destruct rule; simpl; intros [H _]; exact H. Qed.

Lemma find_flag_token_In (rules : list CliRule) (tok : string) (flag : CliRule) :
  find_flag_token rules tok = Some flag ->
  In flag rules /\ (isinstance flag FlagRuleT || isinstance flag PrimaryOptionRuleT) = true.
Proof.
  unfold find_flag_token, find_flag. intros H.
  assert (Hfind : exists t, List.find (fun rule =>
             (isinstance rule FlagRuleT || isinstance rule PrimaryOptionRuleT)
             && has_keyword t rule) rules = Some flag).
  { destruct (List.find _ rules) eqn:H1 in H.
    - injection H as <-. exists tok. exact H1.
    - destruct (split_equals tok) as [[key value] |]; [| discriminate H].
      exists key. exact H. }
  destruct Hfind as [t Hfind]. apply List.find_some in Hfind as [Hin Hb].
  apply andb_true_iff in Hb as [Hb _]. split; assumption.
Qed.

Lemma find_parameter_In (rules : list CliRule) (tok var' : string) (v' : ValueRule) :
  find_parameter rules tok = Some (var', v') ->
  exists kws name,
    In (ParameterRule kws name v') rules /\ var' = var_name_of (ParameterRule kws name v').
Proof.
  unfold find_parameter. induction rules as [| r rules IH]; [discriminate |]. simpl.
  destruct (as_parameter tok r) as [p |] eqn:Hr.
  - simpl. intros H. injection H as ->.
    destruct r as [| | | kws name w | |]; try discriminate Hr.
    unfold as_parameter in Hr. destruct (has_keyword tok _); [| discriminate Hr].
    injection Hr as <- <-. exists kws, name. split; [left; reflexivity | reflexivity].
  - intros H. destruct (IH H) as (kws & name & Hin & Hv).
    exists kws, name. split; [right; exact Hin | exact Hv].
Qed.

Lemma find_parameter_embedded_In (rules : list CliRule) (tok var' raw : string) v' :
  find_parameter_embedded rules tok = Some (var', v', raw) ->
  exists kws name,
    In (ParameterRule kws name v') rules /\ var' = var_name_of (ParameterRule kws name v').
Proof.
  unfold find_parameter_embedded.
  destruct (split_equals tok) as [[key value] |]; [| discriminate].
  destruct (find_parameter rules key) as [[x w] |] eqn:Hp; [| discriminate].
  intros H. injection H as <- <- <-. exact (find_parameter_In _ _ _ _ Hp).
Qed.

Lemma next_positional_In (root : list CliRule) (st : ParserState) name v' :
  next_positional root st = Some (name, v') ->
  In (PositionalArgumentRule name v') (current_scope root (scope_stack st)).
Proof.
  unfold next_positional.
  destruct (filter_rules _ PositionalArgumentRuleT !! positional_cursor st) as [r |] eqn:Hl;
    [| discriminate].
  destruct r; try discriminate. intros H. injection H as <- <-.
  apply list_elem_of_lookup_2, list_elem_of_In in Hl.
  unfold filter_rules in Hl. apply List.filter_In in Hl as [Hin _]. exact Hin.
Qed.

Lemma find_all_arguments_In (root : list CliRule) (st : ParserState) name :
  find_all_arguments root st = Some name ->
  In (AllArgumentsRule name) (current_scope root (scope_stack st)).
Proof.
  unfold find_all_arguments.
  destruct (filter_rules _ AllArgumentsRuleT) as [| r rs] eqn:Hf; [discriminate |].
  destruct r; try discriminate. intros H. injection H as <-.
  assert (Hin : In (AllArgumentsRule name0) (filter_rules
            (current_scope root (scope_stack st)) AllArgumentsRuleT)).
  { rewrite Hf. left. reflexivity. }
  unfold filter_rules in Hin. apply List.filter_In in Hin as [Hin _]. exact Hin.
Qed.

Lemma bind_value_Ok (x : string) (w : ValueRule) (raw : string) (st st1 : ParserState) :
  bind_value x w raw st = Ok st1 ->
  exists y, parse_argument_value w raw = Ok y /\ st1 = with_value st x w y.
Proof.
  unfold bind_value. destruct (parse_argument_value w raw) as [y | e]; simpl;
    [| discriminate].
  intros H. injection H as <-. exists y. split; reflexivity.
Qed.

Section Supplied.

Variables (dry : bool) (root : list CliRule) (var : string) (v : ValueRule).

Hypothesis Hmultiple : rule_multiple v = true.
Hypothesis Hroot : Forall (binds_through_tree var v) root.

Lemma reachable_binds (stack : list CliRule) (r : CliRule) :
  Forall (binds_through_tree var v) stack ->
  In r (reachable_rules root stack) -> binds_through_tree var v r.
Proof.
  intros Hstack Hin. unfold reachable_rules in Hin.
  apply List.in_app_or in Hin as [Hin | Hin].
  - rewrite List.Forall_forall in Hroot. apply Hroot, Hin.
  - apply List.in_flat_map in Hin as (s & Hs & Hin).
    rewrite List.Forall_forall in Hstack.
    exact (binds_through_tree_subrules _ _ _ _ (Hstack s Hs) Hin).
Qed.

Lemma current_scope_binds (stack : list CliRule) (r : CliRule) :
  Forall (binds_through_tree var v) stack ->
  In r (current_scope root stack) -> binds_through_tree var v r.
Proof.
  intros Hstack Hin. unfold current_scope in Hin.
  destruct (last stack) as [sub |] eqn:Hlast.
  - apply last_Some in Hlast as [l' ->].
    apply Forall_app in Hstack as [_ Hsub]. apply Forall_cons_1 in Hsub as [Hsub _].
    exact (binds_through_tree_subrules _ _ _ _ Hsub Hin).
  - rewrite List.Forall_forall in Hroot. apply Hroot, Hin.
Qed.

Lemma bind_value_step (x : string) (w : ValueRule) (raw : string) (st st1 : ParserState) :
  (x = var -> w = v) ->
  bind_value x w raw st = Ok st1 ->
  scope_stack st1 = scope_stack st /\
  positional_cursor st1 = positional_cursor st /\
  exists ys,
    map_result (parse_argument_value v) (if String.eqb x var then [raw] else []) = Ok ys /\
    st_bindings st1 !! var = extended (st_bindings st !! var) ys.
Proof.
  intros Hxw Hb. apply bind_value_Ok in Hb as (y & Hy & ->).
  split; [reflexivity |]. split; [reflexivity |]. simpl.
  destruct (String.eqb_spec x var) as [-> | Hne].
  - rewrite (Hxw eq_refl) in *. exists [y]. simpl. rewrite Hy. simpl.
    split; [reflexivity |]. rewrite lookup_insert_eq, Hmultiple.
    unfold extended, sequence_of, accumulate.
    destruct (st_bindings st !! var) as [[| | | | l] |]; reflexivity.
  - exists []. split; [reflexivity |]. simpl. apply lookup_insert_ne. exact Hne.
Qed.

Lemma consume_supplied (n : nat) : forall toks st st',
  List.length toks <= n ->
  Forall (binds_through_tree var v) (scope_stack st) ->
  consume dry root st toks = Ok st' ->
  exists values,
    map_result (parse_argument_value v)
      (supplied dry root var (scope_stack st) (positional_cursor st) toks) = Ok values /\
    st_bindings st' !! var = extended (st_bindings st !! var) values /\
    Forall (binds_through_tree var v) (scope_stack st').
Proof.
  induction n as [| n IH]; intros toks st st' Hlen Hstack Hcons.
  { destruct toks; [| simpl in Hlen; lia]. injection Hcons as <-.
    exists []. split; [reflexivity |]. split; [reflexivity | exact Hstack]. }
  destruct toks as [| tok rest].
  { injection Hcons as <-. exists []. split; [reflexivity |]. split; [reflexivity | exact Hstack]. }
  simpl in Hlen. simpl in Hcons. simpl supplied.
  change (next_positional root (mkParserState (scope_stack st) ∅ (positional_cursor st) []))
    with (next_positional root st).
  change (find_all_arguments root (mkParserState (scope_stack st) ∅ (positional_cursor st) []))
    with (find_all_arguments root st).
  destruct (find_subcommand (reachable_rules root (scope_stack st)) tok) as [sub |] eqn:Hsub.
  { apply (IH rest (push_scope sub st) st'); [lia | | exact Hcons].
    simpl. apply Forall_app. split; [exact Hstack |]. constructor; [| constructor].
    apply List.find_some in Hsub as [Hin _]. exact (reachable_binds _ _ Hstack Hin). }
  destruct (find_flag_token (reachable_rules root (scope_stack st)) tok) as [flag |] eqn:Hflag.
  { destruct (IH rest (bind_flag flag st) st' ltac:(lia) Hstack Hcons)
      as (values & Hv & Hb & Hs).
    exists values. split; [exact Hv |]. split; [| exact Hs].
    rewrite Hb. f_equal. simpl. apply lookup_insert_ne.
    apply find_flag_token_In in Hflag as [Hin Hkind].
    pose proof (binds_through_tree_here _ _ _ (reachable_binds _ _ Hstack Hin)) as Hbt.
    destruct flag; try discriminate Hkind; exact Hbt. }
  destruct (find_parameter (reachable_rules root (scope_stack st)) tok)
    as [[x w] |] eqn:Hp.
  { destruct rest as [| raw rest']; [discriminate Hcons |].
    destruct (bind_value x w raw st) as [st1 |] eqn:Hbind; [| discriminate Hcons].
    apply find_parameter_In in Hp as (kws & name & Hin & Hx).
    pose proof (binds_through_tree_here _ _ _ (reachable_binds _ _ Hstack Hin)) as Hbt.
    simpl in Hbt. rewrite <- Hx in Hbt.
    destruct (bind_value_step x w raw st st1 Hbt Hbind) as (Hs1 & Hc1 & ys & Hys & Hb1).
    simpl in Hlen.
    destruct (IH rest' st1 st' ltac:(lia) ltac:(rewrite Hs1; exact Hstack) Hcons)
      as (values & Hv & Hb & Hs).
    rewrite Hs1, Hc1 in Hv.
    exists (ys ++ values). split; [exact (map_result_app _ _ _ _ _ Hys Hv) |].
    split; [| exact Hs]. rewrite Hb, Hb1. apply extended_extended. }
  destruct (find_parameter_embedded (reachable_rules root (scope_stack st)) tok)
    as [[[x w] raw] |] eqn:Hpe.
  { destruct (bind_value x w raw st) as [st1 |] eqn:Hbind; [| discriminate Hcons].
    apply find_parameter_embedded_In in Hpe as (kws & name & Hin & Hx).
    pose proof (binds_through_tree_here _ _ _ (reachable_binds _ _ Hstack Hin)) as Hbt.
    simpl in Hbt. rewrite <- Hx in Hbt.
    destruct (bind_value_step x w raw st st1 Hbt Hbind) as (Hs1 & Hc1 & ys & Hys & Hb1).
    destruct (IH rest st1 st' ltac:(lia) ltac:(rewrite Hs1; exact Hstack) Hcons)
      as (values & Hv & Hb & Hs).
    rewrite Hs1, Hc1 in Hv.
    exists (ys ++ values). split; [exact (map_result_app _ _ _ _ _ Hys Hv) |].
    split; [| exact Hs]. rewrite Hb, Hb1. apply extended_extended. }
  destruct (next_positional root st) as [[name w] |] eqn:Hpos.
  { destruct (bind_value name w tok st) as [st1 |] eqn:Hbind; [| discriminate Hcons].
    apply next_positional_In in Hpos.
    pose proof (binds_through_tree_here _ _ _ (current_scope_binds _ _ Hstack Hpos)) as Hbt.
    simpl in Hbt.
    apply bind_value_Ok in Hbind as (y & _ & ->).
    destruct (IH rest (advance_positional (with_value st name w y)) st' ltac:(lia)
                Hstack Hcons) as (values & Hv & Hb & Hs).
    exists values. split; [exact Hv |]. split; [| exact Hs].
    rewrite Hb. f_equal. simpl. apply lookup_insert_ne. exact Hbt. }
  destruct (find_all_arguments root st) as [name |] eqn:Hall.
  { injection Hcons as <-. exists []. split; [reflexivity |]. split; [| exact Hstack].
    apply find_all_arguments_In in Hall.
    pose proof (binds_through_tree_here _ _ _ (current_scope_binds _ _ Hstack Hall)) as Hbt.
    simpl in Hbt. simpl. apply lookup_insert_ne. exact Hbt. }
  destruct dry; [| discriminate Hcons].
  exact (IH rest st st' ltac:(lia) Hstack Hcons).
Qed.

End Supplied.

Lemma var_name_of_positional (name : string) (w : ValueRule) :
  var_name_of (PositionalArgumentRule name w) = name.
Proof. destruct name; reflexivity. Qed.

Lemma default_of_multiple (var : string) (v : ValueRule) (r : CliRule) (d : Value) :
  rule_multiple v = true ->
  binds_through var v r ->
  default_binding r = Some (var, d) ->
  d = VList [].
Proof.
  intros Hm Hbt Hd.
  destruct r as [kws h subs run | kws h | kws h | kws name w | name w | name];
    simpl in Hbt; try discriminate Hd.
  - injection Hd as Hv _. contradiction.
  - injection Hd as Hv _. contradiction.
  - unfold default_binding in Hd. injection Hd as Hv Hd.
    rewrite (Hbt Hv), Hm in Hd. symmetry. exact Hd.
  - unfold default_binding in Hd. rewrite var_name_of_positional in Hd.
    injection Hd as Hv _. contradiction.
Qed.

Lemma apply_defaults_unbound_same (rules : list CliRule) (x : string) (d0 : Value) :
  forall b,
    b !! x = None ->
    (exists r d, In r rules /\ default_binding r = Some (x, d)) ->
    (forall r d, In r rules -> default_binding r = Some (x, d) -> d = d0) ->
    apply_defaults rules b !! x = Some d0.
Proof.
  induction rules as [| r0 rules IH]; intros b Hb (r & d & Hin & Hd) Hall;
    [destruct Hin |].
  simpl. destruct (default_binding r0) as [[x0 d1] |] eqn:Hr0.
  - destruct (String.eqb_spec x0 x) as [-> | Hne].
    + rewrite Hb. apply apply_defaults_bound. rewrite lookup_insert_eq.
      f_equal. exact (Hall r0 d1 (or_introl eq_refl) Hr0).
    + destruct Hin as [-> | Hin]; [congruence |].
      apply IH.
      * destruct (b !! x0); [exact Hb |]. rewrite lookup_insert_ne; assumption.
      * exists r, d. split; assumption.
      * intros r' d' Hr'. apply Hall. right. exact Hr'.
  - destruct Hin as [-> | Hin]; [congruence |].
    apply IH; [exact Hb | exists r, d; split; assumption |].
    intros r' d' Hr'. apply Hall. right. exact Hr'.
Qed.

Section SuppliedOccurrences.

Variables (dry : bool) (root : list CliRule) (stack : list CliRule) (cursor : nat).
Variables (var : string) (v : ValueRule).

Hypothesis Hfree : equals_free (reachable_rules root stack).

Lemma supplied_occurrence (o : Occurrence) (rest : list string) :
  resolves_to_parameter (reachable_rules root stack) (occ_keyword o) var v ->
  supplied dry root var stack cursor (tokens_of o ++ rest)
  = occ_raw o :: supplied dry root var stack cursor rest.
Proof.
  intros Hparam.
  pose proof (parameter_keyword_plain root (mkParserState stack ∅ cursor [])
                (occ_keyword o) var v Hfree Hparam) as Hplain.
  destruct Hparam as (Hs & Hf & Hp).
  destruct o as [k raw | k raw]; simpl in *.
  - rewrite Hs. unfold find_flag_token. rewrite Hf, Hplain, Hp.
    rewrite String.eqb_refl. reflexivity.
  - pose proof (with_equals_unmatched _ k raw Hfree Hplain) as Hun.
    unfold find_subcommand, find_flag_token, find_flag, find_parameter_embedded.
    rewrite (find_guarded_None _ _ _ Hun).
    rewrite (find_guarded_None _ _ (fun rule =>
               isinstance rule FlagRuleT || isinstance rule PrimaryOptionRuleT) Hun).
    rewrite (split_equals_append k raw Hplain).
    fold (find_flag (reachable_rules root stack) k). rewrite Hf.
    rewrite (find_parameter_None _ _ Hun), Hp.
    rewrite String.eqb_refl. reflexivity.
Qed.

Lemma supplied_occurrences (occs : list Occurrence) :
  Forall (fun o => resolves_to_parameter (reachable_rules root stack) (occ_keyword o) var v)
    occs ->
  supplied dry root var stack cursor (List.concat (tokens_of <$> occs)) = occ_raw <$> occs.
Proof.
  induction occs as [| o occs IH]; intros Hocc; [reflexivity |].
  apply Forall_cons_1 in Hocc as [Ho Hocc].
  rewrite !fmap_cons. simpl List.concat.
  rewrite (supplied_occurrence o _ Ho), (IH Hocc). reflexivity.
Qed.

End SuppliedOccurrences.

Lemma parse_args_supplied
    (dry : bool) (root : list CliRule) (keywords : list string) (name : option string)
    (v : ValueRule) (toks : list string) (ctx : RunContext) :
  rule_multiple v = true ->
  In (ParameterRule keywords name v) root ->
  Forall (binds_through_tree (var_name_of (ParameterRule keywords name v)) v) root ->
  parse_args root dry toks = Ok ctx ->
  exists values,
    map_result (parse_argument_value v)
      (supplied dry root (var_name_of (ParameterRule keywords name v)) [] 0 toks)
    = Ok values /\
    List.length values
    = List.length (supplied dry root (var_name_of (ParameterRule keywords name v)) [] 0 toks)
    /\
    bindings ctx !! var_name_of (ParameterRule keywords name v)
    = if dry then extended None values else Some (VList values).
Proof.
  intros Hm Hin Hroot Hparse.
  set (var := var_name_of (ParameterRule keywords name v)) in *.
  unfold parse_args, resolve_from in Hparse.
  destruct (consume dry root initial_state toks) as [st' | e] eqn:Hcons;
    [| discriminate Hparse].
  destruct (consume_supplied dry root var v Hm Hroot (List.length toks) toks
              initial_state st' (le_n _) (List.Forall_nil _) Hcons)
    as (values & Hv & Hb & Hs).
  simpl in Hv, Hb. rewrite lookup_empty in Hb.
  exists values. split; [exact Hv |]. split; [exact (map_result_length _ _ _ Hv) |].
  simpl in Hparse. destruct dry.
  - injection Hparse as <-. exact Hb.
  - unfold finalize in Hparse.
    destruct (List.find _ _); [discriminate Hparse |]. injection Hparse as <-. simpl.
    destruct values as [| y ys].
    + simpl in Hb. apply apply_defaults_unbound_same; [exact Hb | |].
      * exists (ParameterRule keywords name v), (VList []). split.
        -- unfold reachable_rules. apply List.in_or_app. left. exact Hin.
        -- simpl. rewrite Hm. reflexivity.
      * intros r d Hr Hd.
        apply (default_of_multiple var v r d Hm); [| exact Hd].
        exact (binds_through_tree_here _ _ _ (reachable_binds root var v Hroot _ _ Hs Hr)).
    + apply apply_defaults_bound. exact Hb.
Qed.




(** C8: at the end of input in strict mode, a reachable rule that is
    required and whose variable is unbound makes the resolution fail with
    [MissingRequiredArgument] for such a rule; when no required rule is
    unbound, every unbound rule gets its default, the declared one for a
    parameter that is not [multiple]; an optional untyped parameter absent
    from the input is bound to [None]. *)
Theorem finalize_spec :
  (forall root st0 toks st,
     consume false root st0 toks = Ok st ->
     resolve_from false root st0 toks = finalize root st) /\
  (forall root st rule,
     In rule (reachable_rules root (scope_stack st)) ->
     required_of rule = true ->
     st_bindings st !! var_name_of rule = None ->
     exists missing,
       In missing (reachable_rules root (scope_stack st)) /\
       required_of missing = true /\
       st_bindings st !! var_name_of missing = None /\
       finalize root st = Raise (CliError MissingRequiredArgument (var_name_of missing))) /\
  (forall root st rule var d,
     List.find (is_missing (st_bindings st)) (reachable_rules root (scope_stack st)) = None ->
     NoDup (bound_variables (reachable_rules root (scope_stack st))) ->
     In rule (reachable_rules root (scope_stack st)) ->
     default_binding rule = Some (var, d) ->
     st_bindings st !! var = None ->
     exists ctx, finalize root st = Ok ctx /\ bindings ctx !! var = Some d) /\
  (forall keywords name t d req c s h,
     default_binding (ParameterRule keywords name (mkValueRule t d req false c s h))
     = Some (var_name_of (ParameterRule keywords name (mkValueRule t d req false c s h)), d)) /\
  (exists ctx, parse_args [param_p] false [] = Ok ctx /\ bindings ctx !! "param" = Some VNone) /\
  parse_args [ParameterRule ["--param"] None required_plain] false []
  = Raise (CliError MissingRequiredArgument "param").
Proof.
  split; [intros root st0 toks st; apply resolve_from_strict |].
  split; [| split; [| split; [| split]]].
  - intros root st rule Hin Hreq Hb. unfold finalize.
    destruct (List.find (is_missing (st_bindings st)) (reachable_rules root (scope_stack st)))
      as [missing |] eqn:Hfind.
    + apply List.find_some in Hfind as [Hmin Hmiss].
      unfold is_missing in Hmiss. apply andb_true_iff in Hmiss as [Hr Hu].
      apply bool_decide_eq_true_1 in Hu.
      exists missing. repeat split; assumption.
    + pose proof (List.find_none _ _ Hfind rule Hin) as Hnone.
      unfold is_missing in Hnone. rewrite Hreq in Hnone. simpl in Hnone.
      apply bool_decide_eq_false_1 in Hnone. contradiction.
  - intros root st rule var d Hfind Hnd Hin Hd Hb. unfold finalize. rewrite Hfind.
    eexists. split; [reflexivity |]. simpl.
    exact (apply_defaults_unbound _ _ rule _ _ Hnd Hin Hd Hb).
  - reflexivity.
  - eexists. split; vm_compute; reflexivity.
  - vm_compute. reflexivity.
Qed.

Lemma finalize_spec_witness :
  exists missing,
    In missing [ParameterRule ["--param"] None required_plain] /\
    required_of missing = true /\
    (∅ : gmap string Value) !! var_name_of missing = None /\
    finalize [ParameterRule ["--param"] None required_plain] initial_state
    = Raise (CliError MissingRequiredArgument (var_name_of missing)).
Proof.
  destruct finalize_spec as (_ & H & _).
  apply (H [ParameterRule ["--param"] None required_plain] initial_state
           (ParameterRule ["--param"] None required_plain)).
  - left. reflexivity.
  - reflexivity.
  - reflexivity.
Defined.

(** * Further properties of the help *)

(** ** Strings and widths *)

Lemma string_length_append (s t : string) :
  String.length (s +:+ t) = String.length s + String.length t.
Proof.
  induction s as [| c s IH]; [reflexivity |].
  rewrite append_cons. simpl. rewrite IH. reflexivity.
Qed.

Lemma spaces_length (n : nat) : String.length (spaces n) = n.
Proof. induction n as [| n IH]; simpl; [reflexivity | rewrite IH; reflexivity]. Qed.

Lemma ljust_length (s : string) (width : nat) :
  String.length s <= width -> String.length (ljust s width) = width.
Proof.
  intros H. unfold ljust. rewrite string_length_append, spaces_length. lia.
Qed.

Lemma fold_left_max_ge (ws : list nat) : forall w,
  w <= List.fold_left Nat.max ws w /\
  Forall (fun x => x <= List.fold_left Nat.max ws w) ws.
Proof.
  induction ws as [| x ws IH]; intros w; simpl; [split; [lia | constructor] |].
  destruct (IH (Nat.max w x)) as [H1 H2]. split; [lia |].
  constructor; [lia | exact H2].
Qed.

Lemma fold_left_max_attained (ws : list nat) : forall w,
  List.fold_left Nat.max ws w = w \/ In (List.fold_left Nat.max ws w) ws.
Proof.
  induction ws as [| x ws IH]; intros w; simpl; [left; reflexivity |].
  destruct (IH (Nat.max w x)) as [H | H].
  - rewrite H. destruct (Nat.max_spec w x) as [[_ ->] | [_ ->]]; [right; left | left];
      reflexivity.
  - right. right. exact H.
Qed.

(** X1: [_normalized_version] puts one [v] in front of a version that has
    none and leaves the others alone, so applying it twice changes nothing
    more. *)
Theorem normalized_version_idempotent (version : string) :
  startswith_v (_normalized_version version) = true /\
  _normalized_version (_normalized_version version) = _normalized_version version /\
  (_normalized_version version = version \/ _normalized_version version = "v" +:+ version).
Proof.
  unfold _normalized_version.
  destruct (startswith_v version) eqn:Hv.
  - rewrite Hv. split; [reflexivity |]. split; [reflexivity | left; reflexivity].
  - split; [reflexivity |]. split; [reflexivity | right; reflexivity].
Qed.

Lemma max_name_width_longest (helps : list _OptionHelp) :
  helps <> [] ->
  exists w,
    _max_name_width helps = Ok w /\
    Forall (fun h => String.length (cmd h) <= w) helps /\
    Exists (fun h => String.length (cmd h) = w) helps.
Proof.
  destruct helps as [| h helps]; [congruence |]. intros _.
  unfold _max_name_width. simpl.
  set (ws := List.map (fun h0 => String.length (cmd h0)) helps).
  exists (List.fold_left Nat.max ws (String.length (cmd h))).
  split; [reflexivity |].
  destruct (fold_left_max_ge ws (String.length (cmd h))) as [Hh Hws]. split.
  - constructor; [exact Hh |].
    rewrite List.Forall_forall in Hws |- *. intros h' Hin.
    apply Hws. unfold ws. apply List.in_map_iff. exists h'. split; [reflexivity | exact Hin].
  - destruct (fold_left_max_attained ws (String.length (cmd h))) as [Heq | Hin].
    + apply Exists_cons_hd. symmetry. exact Heq.
    + apply Exists_cons_tl. unfold ws in Hin at 2. apply List.in_map_iff in Hin.
      destruct Hin as (h' & Hlen & Hin').
      apply List.Exists_exists. exists h'. split; [exact Hin' | exact Hlen].
Qed.

(** X2: [_max_name_width] of a non-empty list of entries is the length of
    the longest [cmd]: no [cmd] is longer and one is that long. *)
Theorem max_name_width_spec (helps : list _OptionHelp) :
  helps <> [] ->
  exists w,
    _max_name_width helps = Ok w /\
    Forall (fun h => String.length (cmd h) <= w) helps /\
    Exists (fun h => String.length (cmd h) = w) helps.
Proof. apply max_name_width_longest. Qed.

Lemma max_name_width_spec_witness :
  exists w,
    _max_name_width [mk_OptionHelp "-p, --param PARAM" None None;
                     mk_OptionHelp "-f" (Some "force") None] = Ok w /\
    Forall (fun h => String.length (cmd h) <= w)
      [mk_OptionHelp "-p, --param PARAM" None None; mk_OptionHelp "-f" (Some "force") None] /\
    Exists (fun h => String.length (cmd h) = w)
      [mk_OptionHelp "-p, --param PARAM" None None; mk_OptionHelp "-f" (Some "force") None].
Proof.
  apply (max_name_width_spec
           [mk_OptionHelp "-p, --param PARAM" None None; mk_OptionHelp "-f" (Some "force") None]).
  discriminate.
Defined.

(** X3: [__helpers_output] keeps the lines it is given and adds one line per
    entry; every added line is two spaces and the [cmd] filled up with spaces
    to one common width, so that the help texts start in one column. *)
Theorem helpers_output_aligned (commands : list _OptionHelp) (out : list string) :
  commands <> [] ->
  exists w lines,
    __helpers_output commands out = Ok (out ++ lines) /\
    Forall2 (fun helper line =>
               String.length (ljust (cmd helper) w) = w /\
               line = if truthy_str (help_text helper)
                      then "  " +:+ ljust (cmd helper) w +:+ " - " +:+ fmt (help_text helper)
                      else "  " +:+ ljust (cmd helper) w)
      commands lines.
Proof.
  intros Hne. destruct (max_name_width_longest commands Hne) as (w & Hw & Hall & _).
  exists w. eexists. unfold __helpers_output. rewrite Hw. simpl.
  split; [reflexivity |].
  clear Hw Hne. induction commands as [| h commands IH]; simpl; [constructor |].
  apply Forall_cons_1 in Hall as [Hh Hall].
  constructor; [| exact (IH Hall)].
  split; [apply ljust_length, Hh | reflexivity].
Qed.

Lemma helpers_output_aligned_witness :
  exists w lines,
    __helpers_output [mk_OptionHelp "-p, --param PARAM" None None;
                      mk_OptionHelp "-f" (Some "force") None] ["Options:"]
    = Ok (["Options:"] ++ lines) /\
    Forall2 (fun helper line =>
               String.length (ljust (cmd helper) w) = w /\
               line = if truthy_str (help_text helper)
                      then "  " +:+ ljust (cmd helper) w +:+ " - " +:+ fmt (help_text helper)
                      else "  " +:+ ljust (cmd helper) w)
      [mk_OptionHelp "-p, --param PARAM" None None; mk_OptionHelp "-f" (Some "force") None]
      lines.
Proof.
  apply (helpers_output_aligned
           [mk_OptionHelp "-p, --param PARAM" None None; mk_OptionHelp "-f" (Some "force") None]
           ["Options:"]).
  discriminate.
Defined.

(** X4: [app_help_info] gives nothing exactly when neither a name nor a help
    text is given; without a name the version is not shown; what it gives
    ends with a line break. *)
Theorem app_help_info_spec (app_name help version : option string) :
  (app_help_info app_name help version = None
   <-> truthy_str app_name = false /\ truthy_str help = false) /\
  app_help_info None help version = app_help_info None help None /\
  app_help_info (Some "") help version = app_help_info (Some "") help None /\
  match app_help_info app_name help version with
  | Some info => exists body, info = body +:+ nl
  | None => True
  end.
Proof.
  unfold app_help_info. repeat split.
  - destruct (truthy_str app_name); [discriminate |].
    destruct (truthy_str help); [discriminate | reflexivity].
  - destruct (truthy_str app_name); [discriminate |].
    destruct (truthy_str help); [discriminate | reflexivity].
  - intros [-> ->]. reflexivity.
  - destruct (truthy_str app_name); [eexists; reflexivity |].
    destruct (truthy_str help); [eexists; reflexivity | exact I].
Qed.

(** X5: with a name and no help text, the first line of the help is the line
    [print_version] writes, followed by a line break. *)
Theorem app_help_info_print_version (app_name help version : option string) :
  truthy_str app_name = true ->
  truthy_str help = false ->
  app_help_info app_name help version = Some (print_version app_name version +:+ nl).
Proof.
  intros Ha Hh. unfold app_help_info, print_version. rewrite Ha, Hh.
  destruct (truthy_str version); reflexivity.
Qed.

Lemma app_help_info_print_version_witness :
  app_help_info (Some "myapp") None (Some "1.0")
  = Some (print_version (Some "myapp") (Some "1.0") +:+ nl).
Proof. apply app_help_info_print_version; reflexivity. Defined.

Lemma helpers_output_Ok (commands : list _OptionHelp) (out : list string) :
  commands <> [] ->
  exists lines,
    __helpers_output commands out = Ok (out ++ lines) /\
    List.length lines = List.length commands.
Proof.
  intros Hne. destruct (max_name_width_longest commands Hne) as (w & Hw & _).
  eexists. unfold __helpers_output. rewrite Hw. simpl.
  split; [reflexivity | apply List.length_map].
Qed.

(** ** Keywords in the help *)

Lemma keyword_le_refl (k : string) : keyword_le k k.
Proof.
  unfold keyword_le, keyword_leb. rewrite Nat.eqb_refl, Nat.ltb_irrefl. simpl.
  exact (reflexivity (R := String.le) k).
Qed.

Lemma keyword_le_length (a b : string) :
  keyword_le a b ->
  String.length a <= String.length b /\
  (String.length b = String.length a -> String.leb a b = true).
Proof.
  unfold keyword_le, keyword_leb.
  destruct (Nat.ltb_spec (String.length a) (String.length b)) as [Hlt | Hge]; simpl.
  - intros _. split; lia.
  - destruct (Nat.eqb_spec (String.length a) (String.length b)) as [Heq | Hne]; simpl.
    + intros H. split; [lia |]. intros _. apply Is_true_true_1, H.
    + intros [].
Qed.

(** X6: the first keyword of [sorted_keywords] is one of the keywords, no
    other keyword is shorter, and those of the same length do not come before
    it in the order of strings. *)
Theorem sorted_keywords_head_shortest (keywords : list string) (k0 : string)
    (rest : list string) :
  sorted_keywords keywords = k0 :: rest ->
  In k0 keywords /\
  Forall (fun k => String.length k0 <= String.length k /\
                   (String.length k = String.length k0 -> String.leb k0 k = true))
    keywords.
Proof.
  intros Hs.
  assert (Hperm : k0 :: rest ≡ₚ keywords).
  { rewrite <- Hs. apply merge_sort_Permutation. }
  assert (Hsorted : StronglySorted keyword_le (k0 :: rest)).
  { rewrite <- Hs. apply StronglySorted_merge_sort; apply _. }
  apply StronglySorted_inv in Hsorted as [_ Hall].
  split.
  - apply (Permutation_in _ Hperm). left. reflexivity.
  - apply List.Forall_forall. intros k Hk.
    apply keyword_le_length.
    apply (Permutation_in _ (Permutation_sym Hperm)) in Hk as [<- | Hk].
    + apply keyword_le_refl.
    + rewrite List.Forall_forall in Hall. apply Hall, Hk.
Qed.

Lemma sorted_keywords_head_shortest_witness :
  In "-p" ["--param"; "-p"] /\
  Forall (fun k => String.length "-p" <= String.length k /\
                   (String.length k = String.length "-p" -> String.leb "-p" k = true))
    ["--param"; "-p"].
Proof.
  apply (sorted_keywords_head_shortest ["--param"; "-p"] "-p" ["--param"]). reflexivity.
Defined.

(** X7: the help lines of a subcommand, a flag and a primary option do not
    depend on the order in which their keyword set iterates. *)
Theorem keyword_helps_order_independent
    (keywords keywords' : list string) (help : option string)
    (subrules : list CliRule) (run : option string) (parent : option _OptionHelp) :
  keywords ≡ₚ keywords' ->
  _subcommand_help (SubcommandRule keywords help subrules run) parent
  = _subcommand_help (SubcommandRule keywords' help subrules run) parent /\
  _flag_help (FlagRule keywords help) = _flag_help (FlagRule keywords' help) /\
  _primary_option_help (PrimaryOptionRule keywords help)
  = _primary_option_help (PrimaryOptionRule keywords' help).
Proof.
  intros Hp.
  assert (Hs : sorted_keywords keywords = sorted_keywords keywords').
  { destruct (sorted_keywords_ordered keywords') as (_ & _ & H). apply H, Hp. }
  unfold _subcommand_help, _flag_help, _primary_option_help. simpl. rewrite Hs.
  repeat split.
Qed.

Lemma keyword_helps_order_independent_witness :
  _subcommand_help (SubcommandRule ["remote"; "rm"] None [] None) None
  = _subcommand_help (SubcommandRule ["rm"; "remote"] None [] None) None.
Proof.
  apply (keyword_helps_order_independent ["remote"; "rm"] ["rm"; "remote"]).
  apply perm_swap.
Defined.

(** X8: the short name of a subcommand is one of its keywords, and one that
    [sorted_keywords] lists; a subcommand with an empty keyword set has none
    and [StopIteration] is raised. *)
Theorem subcommand_short_name_member :
  (forall help subrules run,
     _subcommand_short_name (SubcommandRule [] help subrules run) = Raise StopIteration) /\
  (forall rule k,
     _subcommand_short_name rule = Ok k ->
     In k (keywords_of rule) /\ In k (sorted_keywords (keywords_of rule))).
Proof.
  split; [reflexivity |].
  intros rule k. unfold _subcommand_short_name.
  destruct (has_keywords rule); [| discriminate].
  destruct (keywords_of rule) as [| k1 ks] eqn:Hk; [discriminate |].
  intros H. injection H as <-.
  assert (Hin : In k1 (k1 :: ks)) by (left; reflexivity).
  split; [exact Hin |].
  apply (Permutation_in _ (Permutation_sym (merge_sort_Permutation keyword_le (k1 :: ks)))).
  exact Hin.
Qed.

Lemma subcommand_short_name_member_witness :
  In "remote" (keywords_of remote_rm) /\
  In "remote" (sorted_keywords (keywords_of remote_rm)).
Proof.
  destruct subcommand_short_name_member as [_ H].
  apply (H remote_rm "remote"). reflexivity.
Defined.

(** X9: [_param_var_name] raises, with the [ValueError] of [max] on an empty
    sequence, exactly when the parameter has no name and its keywords give no
    name; in every other case it returns a name. *)
Theorem param_var_name_raises
    (names_of : list string -> list string) (keywords : list string)
    (name : option string) (v : ValueRule) :
  (_param_var_name names_of (ParameterRule keywords name v)
   = Raise (ValueError "max() arg is an empty sequence")
   <-> truthy_str name = false /\ names_of keywords = []) /\
  ((exists n, _param_var_name names_of (ParameterRule keywords name v) = Ok n)
   <-> truthy_str name = true \/ names_of keywords <> []).
Proof.
  unfold _param_var_name. simpl.
  destruct (truthy_str name); simpl.
  - split; split.
    + discriminate.
    + intros [H _]. discriminate H.
    + intros _. left. reflexivity.
    + intros _. eexists. reflexivity.
  - destruct (names_of keywords) as [| n names]; simpl; split; split.
    + intros _. split; reflexivity.
    + reflexivity.
    + intros [n H]. discriminate H.
    + intros [H | H]; [discriminate H | congruence].
    + discriminate.
    + intros [_ H]. discriminate H.
    + intros _. right. discriminate.
    + intros _. eexists. reflexivity.
Qed.

(** X10: [sorted_keywords] gives the same list for every order in which the
    keyword set iterates: the keywords themselves, each as often as given,
    shortest first and alphabetically among equal lengths. *)
Theorem sorted_keywords_deterministic (keywords keywords' : list string) :
  keywords' ≡ₚ keywords ->
  sorted_keywords keywords' = sorted_keywords keywords /\
  sorted_keywords keywords ≡ₚ keywords /\
  StronglySorted keyword_le (sorted_keywords keywords).
Proof.
  intros Hp. destruct (sorted_keywords_ordered keywords) as (Hperm & Hsorted & Hind).
  split; [apply Hind, Hp |]. split; assumption.
Qed.

Lemma sorted_keywords_deterministic_witness :
  sorted_keywords ["-p"; "--param"; "-P"] = sorted_keywords ["--param"; "-P"; "-p"] /\
  sorted_keywords ["--param"; "-P"; "-p"] ≡ₚ ["--param"; "-P"; "-p"] /\
  StronglySorted keyword_le (sorted_keywords ["--param"; "-P"; "-p"]).
Proof.
  apply (sorted_keywords_deterministic ["--param"; "-P"; "-p"] ["-p"; "--param"; "-P"]).
  apply (Permutation_cons_app ["--param"; "-P"] []). reflexivity.
Defined.

(** ** Options and commands *)

Section OptionLines.

Variable names_of : list string -> list string.
Variable argv0 : string.

Lemma generate_option_help_Some (rule : CliRule) (o : option _OptionHelp) :
  _generate_option_help names_of rule = Ok o ->
  List.length (option_list o) = if is_option rule then 1 else 0.
Proof.
  unfold _generate_option_help, is_option.
  destruct (isinstance rule PrimaryOptionRuleT); [intros H; injection H as <-; reflexivity |].
  destruct (isinstance rule FlagRuleT); [intros H; injection H as <-; reflexivity |].
  destruct (isinstance rule ParameterRuleT); simpl.
  - destruct (_parameter_help names_of rule); simpl; [| discriminate].
    intros H; injection H as <-; reflexivity.
  - intros H; injection H as <-; reflexivity.
Qed.

Lemma generate_option_help_nameable (rule : CliRule) :
  if nameable names_of rule
  then exists o, _generate_option_help names_of rule = Ok o
  else _generate_option_help names_of rule
       = Raise (ValueError "max() arg is an empty sequence").
Proof.
  unfold nameable, _generate_option_help.
  destruct rule as [kws h subs run | kws h | kws h | kws name v | name v | name];
    simpl; try (eexists; reflexivity).
  unfold _parameter_help, _param_var_name. simpl.
  destruct (truthy_str name); simpl; [eexists; reflexivity |].
  destruct (names_of kws); simpl; [reflexivity | eexists; reflexivity].
Qed.

Lemma generate_options_helps_length (rules : list CliRule) : forall helps,
  _generate_options_helps names_of rules = Ok helps ->
  List.length helps = List.length (List.filter is_option rules).
Proof.
  unfold _generate_options_helps.
  induction rules as [| r rules IH]; intros helps; simpl.
  - intros H. injection H as <-. reflexivity.
  - destruct (_generate_option_help names_of r) as [o | e] eqn:Ho; simpl; [| discriminate].
    destruct (map_result (_generate_option_help names_of) rules) as [os | e];
      simpl in *; [| discriminate].
    intros H. injection H as <-.
    rewrite List.length_app, (generate_option_help_Some _ _ Ho), (IH _ eq_refl).
    destruct (is_option r); reflexivity.
Qed.

Lemma generate_options_helps_nameable (rules : list CliRule) :
  if forallb (nameable names_of) rules
  then exists helps, _generate_options_helps names_of rules = Ok helps
  else _generate_options_helps names_of rules
       = Raise (ValueError "max() arg is an empty sequence").
Proof.
  unfold _generate_options_helps.
  induction rules as [| r rules IH]; simpl; [eexists; reflexivity |].
  pose proof (generate_option_help_nameable r) as Hr.
  destruct (nameable names_of r); simpl.
  - destruct Hr as [o ->]. simpl.
    destruct (forallb (nameable names_of) rules).
    + destruct IH as [helps IH].
      destruct (map_result (_generate_option_help names_of) rules); simpl in *;
        [eexists; reflexivity | discriminate].
    + destruct (map_result (_generate_option_help names_of) rules); simpl in *;
        [discriminate | exact IH].
  - rewrite Hr. reflexivity.
Qed.

(** X11: the options of the help have one entry for each primary option, flag
    and parameter among the rules, and none for the other rules. *)
Theorem generate_options_helps_count (rules : list CliRule) (helps : list _OptionHelp) :
  _generate_options_helps names_of rules = Ok helps ->
  List.length helps = List.length (List.filter is_option rules).
Proof. apply generate_options_helps_length. Qed.

End OptionLines.

Lemma generate_options_helps_count_witness :
  List.length [mk_OptionHelp "-p, --param PARAM" None None]
  = List.length (List.filter is_option [run_command; param_p; AllArgumentsRule "rest"]).
Proof.
  apply (generate_options_helps_count names_from_keywords
           [run_command; param_p; AllArgumentsRule "rest"]).
  reflexivity.
Defined.

Lemma CliRule_tree_ind (P : CliRule -> Prop) :
  (forall keywords help subrules run,
     Forall P subrules -> P (SubcommandRule keywords help subrules run)) ->
  (forall rule, isinstance rule SubcommandRuleT = false -> P rule) ->
  forall rule, P rule.
Proof.
  intros Hsub Hleaf. fix IH 1.
  intros [keywords help subrules run | kws h | kws h | kws name v | name v | name];
    try (apply Hleaf; reflexivity).
  apply Hsub. induction subrules as [| r subrules IHl]; constructor; [apply IH | exact IHl].
Qed.

Lemma commands_helps_rule_length (rule : CliRule) : forall parent,
  List.length (_generate_commands_helps_rule parent rule) = subcommand_count_rule rule.
Proof.
  induction rule as [keywords help subrules run IH | rule Hleaf] using CliRule_tree_ind;
    intros parent.
  - simpl. f_equal.
    generalize (Some (_subcommand_help (SubcommandRule keywords help subrules run) parent)).
    intros p. induction IH as [| r subrules Hr _ IHl]; simpl; [reflexivity |].
    rewrite List.length_app, Hr, IHl. reflexivity.
  - destruct rule; try reflexivity. discriminate Hleaf.
Qed.

Lemma commands_helps_length (rules : list CliRule) (parent : option _OptionHelp) :
  List.length (_generate_commands_helps rules parent) = subcommand_count rules.
Proof.
  unfold _generate_commands_helps, subcommand_count.
  induction rules as [| r rules IH]; simpl; [reflexivity |].
  rewrite List.length_app, commands_helps_rule_length, IH. reflexivity.
Qed.

Lemma commands_helps_filter (rules : list CliRule) (parent : option _OptionHelp) :
  _generate_commands_helps (filter_rules rules SubcommandRuleT) parent
  = _generate_commands_helps rules parent.
Proof.
  unfold _generate_commands_helps, filter_rules.
  induction rules as [| r rules IH]; simpl; [reflexivity |].
  destruct r; simpl; rewrite ?IH; reflexivity.
Qed.

Lemma commands_helps_rule_entries (rule : CliRule) : forall parent0 h,
  In h (_generate_commands_helps_rule parent0 rule) ->
  exists sub,
    isinstance sub SubcommandRuleT = true /\
    h = _subcommand_help sub (parent h).
Proof.
  induction rule as [keywords help subrules run IH | rule Hleaf] using CliRule_tree_ind;
    intros parent0 h Hin.
  - simpl in Hin. destruct Hin as [<- | Hin].
    + eexists. split; [| reflexivity]. reflexivity.
    + apply List.in_flat_map in Hin as (r & Hr & Hin).
      rewrite List.Forall_forall in IH. exact (IH r Hr _ _ Hin).
  - destruct rule; try discriminate Hleaf; destruct Hin.
Qed.

Lemma string_app_assoc (a b c : string) : (a +:+ b) +:+ c = a +:+ (b +:+ c).
Proof.
  induction a as [| ch a IH]; [reflexivity |].
  rewrite !append_cons, IH. reflexivity.
Qed.

Lemma string_app_nil_r (a : string) : a +:+ "" = a.
Proof. induction a as [| ch a IH]; [reflexivity |]. rewrite append_cons, IH. reflexivity. Qed.

Lemma join_cons (sep x y : string) (l : list string) :
  join sep (x :: y :: l) = x +:+ sep +:+ join sep (y :: l).
Proof. reflexivity. Qed.

Lemma commands_helps_rule_paths (rule : CliRule) : forall parent,
  List.map Some (_generate_commands_helps_rule parent rule)
  = List.map (entry_of_path parent) (subcommand_paths_rule rule).
Proof.
  induction rule as [keywords help subrules run IH | rule Hleaf] using CliRule_tree_ind;
    intros parent.
  - simpl. f_equal. rewrite List.map_map. simpl.
    generalize (Some (_subcommand_help (SubcommandRule keywords help subrules run) parent)).
    intros p. induction IH as [| r subrules Hr _ IHl]; simpl; [reflexivity |].
    rewrite !List.map_app, Hr, IHl. reflexivity.
  - destruct rule; try reflexivity. discriminate Hleaf.
Qed.

Lemma commands_helps_paths (rules : list CliRule) (parent : option _OptionHelp) :
  List.map Some (_generate_commands_helps rules parent)
  = List.map (entry_of_path parent) (subcommand_paths rules).
Proof.
  unfold _generate_commands_helps, subcommand_paths.
  induction rules as [| r rules IH]; simpl; [reflexivity |].
  rewrite !List.map_app, commands_helps_rule_paths, IH. reflexivity.
Qed.

Lemma subcommand_paths_rule_nonempty (rule : CliRule) :
  Forall (fun path => exists path' sub,
            path = path' ++ [sub] /\ isinstance sub SubcommandRuleT = true)
    (subcommand_paths_rule rule).
Proof.
  induction rule as [keywords help subrules run IH | rule Hleaf] using CliRule_tree_ind.
  - simpl. constructor; [exists [], (SubcommandRule keywords help subrules run);
                           split; reflexivity |].
    apply List.Forall_forall. intros path Hin.
    apply List.in_map_iff in Hin as (p & <- & Hin).
    apply List.in_flat_map in Hin as (r & Hr & Hin).
    rewrite List.Forall_forall in IH. specialize (IH r Hr).
    rewrite List.Forall_forall in IH. destruct (IH p Hin) as (path' & sub & -> & Hsub).
    exists (SubcommandRule keywords help subrules run :: path'), sub.
    split; [reflexivity | exact Hsub].
  - destruct rule; try discriminate Hleaf; constructor.
Qed.

Lemma entry_of_path_cmd (path : list CliRule) : forall parent sub,
  exists h,
    entry_of_path parent (path ++ [sub]) = Some h /\
    help_text h = help_of sub /\
    cmd h = _subcommand_prefix parent
            +:+ join " " (List.map keywords_label (path ++ [sub])).
Proof.
  induction path as [| r path IH]; intros parent sub.
  - eexists. split; [reflexivity |]. split; reflexivity.
  - destruct (IH (Some (_subcommand_help r parent)) sub) as (h & Hh & Hhelp & Hcmd).
    exists h. split; [exact Hh |]. split; [exact Hhelp |].
    rewrite Hcmd. simpl _subcommand_prefix. simpl cmd.
    change (keywords_label r) with (join "|" (sorted_keywords (keywords_of r))).
    destruct (List.map keywords_label (path ++ [sub])) as [| y l] eqn:Hl.
    + destruct path; discriminate Hl.
    + simpl List.map. fold (keywords_label r). rewrite Hl, join_cons.
      rewrite !string_app_assoc. reflexivity.
Qed.

(** X12: the commands of the help are, in order, the entries of the chains
    of subcommands of the rule tree, one for every subcommand, nested ones
    included, a subcommand before those below it; the entry of a chain has
    the help of its last subcommand, and its [cmd] is that of the given
    parent and a space, if there is one, followed by the sorted keywords,
    joined with [|], of the subcommands of the chain, a space between two of
    them; rules that are not subcommands give no entry. *)
Theorem generate_commands_helps_entries (rules : list CliRule) (parent0 : option _OptionHelp) :
  List.length (_generate_commands_helps rules parent0) = subcommand_count rules /\
  _generate_commands_helps (filter_rules rules SubcommandRuleT) parent0
  = _generate_commands_helps rules parent0 /\
  List.map Some (_generate_commands_helps rules parent0)
  = List.map (entry_of_path parent0) (subcommand_paths rules) /\
  Forall (fun path =>
            exists path' sub h,
              path = path' ++ [sub] /\
              isinstance sub SubcommandRuleT = true /\
              entry_of_path parent0 path = Some h /\
              help_text h = help_of sub /\
              cmd h = _subcommand_prefix parent0
                      +:+ join " " (List.map keywords_label path))
    (subcommand_paths rules).
Proof.
  split; [apply commands_helps_length |]. split; [apply commands_helps_filter |].
  split; [apply commands_helps_paths |].
  apply List.Forall_forall. intros path Hin. unfold subcommand_paths in Hin.
  apply List.in_flat_map in Hin as (r & _ & Hin).
  pose proof (subcommand_paths_rule_nonempty r) as Hne.
  rewrite List.Forall_forall in Hne. destruct (Hne path Hin) as (path' & sub & -> & Hsub).
  destruct (entry_of_path_cmd path' parent0 sub) as (h & Hh & Hhelp & Hcmd).
  exists path', sub, h. repeat (split; [assumption || reflexivity |]). exact Hcmd.
Qed.

(** ** The whole help *)

Section WholeHelp.

Variable names_of : list string -> list string.
Variable argv0 : string.

Lemma header_length (app_name help version : option string) :
  List.length (match app_help_info app_name help version with
               | Some app_info => [app_info]
               | None => []
               end)
  = List.length (option_list (app_help_info app_name help version)).
Proof. destruct (app_help_info app_name help version); reflexivity. Qed.

Lemma helpers_output_entry_lines (helps : list _OptionHelp) (out : list string) :
  helps <> [] ->
  __helpers_output helps out = Ok (out ++ entry_lines helps) /\
  List.length (entry_lines helps) = List.length helps.
Proof.
  intros Hne. destruct (max_name_width_longest helps Hne) as (w & Hw & _).
  unfold entry_lines, __helpers_output. rewrite Hw. simpl.
  split; [reflexivity | apply List.length_map].
Qed.

Lemma fold_left_append (f : string -> CliRule -> string) (g : CliRule -> string) :
  (forall u r, f u r = u +:+ g r) ->
  forall l u0, List.fold_left f l u0 = u0 +:+ concat_strings (List.map g l).
Proof.
  intros Hf. induction l as [| r l IH]; intros u0; simpl.
  - symmetry. apply string_app_nil_r.
  - rewrite IH, Hf. apply string_app_assoc.
Qed.

Lemma usage_syntax_parts (prefix : string) (has_commands has_options : bool)
    (pos_arguments all_args : list CliRule) :
  List.fold_left
    (fun (usage : string) (rule : CliRule) =>
       usage +:+ " [" +:+ fmt (name_of rule) +:+ "...]")
    all_args
    (List.fold_left
       (fun (usage : string) (rule : CliRule) =>
          if required_of rule
          then usage +:+ " " +:+ _argument_var_name rule
          else usage +:+ " [" +:+ _argument_var_name rule +:+ "]")
       pos_arguments
       (if has_options
        then (if has_commands then prefix +:+ " [COMMAND]" else prefix) +:+ " [OPTIONS]"
        else if has_commands then prefix +:+ " [COMMAND]" else prefix))
  = prefix
    +:+ (if has_commands then " [COMMAND]" else "")
    +:+ (if has_options then " [OPTIONS]" else "")
    +:+ concat_strings (List.map usage_argument pos_arguments)
    +:+ concat_strings (List.map usage_rest all_args).
Proof.
  rewrite (fold_left_append _ usage_rest) by (intros; reflexivity).
  rewrite (fold_left_append _ usage_argument)
    by (intros u r; unfold usage_argument; destruct (required_of r); reflexivity).
  destruct has_commands, has_options; rewrite ?string_app_assoc; reflexivity.
Qed.

(** X13: when every parameter among the rules has a name or a keyword that
    gives one, [generate_subcommand_help] returns these lines in this order:
    the line of the application if [app_help_info] gives one; the usage line,
    made of the program name and the path of subcommands, [[COMMAND]] if the
    subrules have a subcommand, [[OPTIONS]] if the rules have a flag, a
    parameter or a primary option, every positional argument and every
    all-arguments rule; if there are options, a heading and the lines of
    [__helpers_output] for them; if there are subcommands, a heading, the
    lines of [__helpers_output] for them and a closing hint. *)
Theorem generate_subcommand_help_lines
    (subrules all_rules : list CliRule) (app_name version help : option string)
    (precommands : list string) :
  forallb (nameable names_of) all_rules = true ->
  exists options out,
    _generate_options_helps names_of all_rules = Ok options /\
    generate_subcommand_help names_of argv0 subrules all_rules app_name version help
      precommands = Ok out /\
    out
    = option_list (app_help_info app_name help version)
      ++ ["Usage:" +:+ nl +:+ "  "
          +:+ join " " (argv0 :: precommands)
          +:+ (if nonempty (_generate_commands_helps subrules None)
               then " [COMMAND]" else "")
          +:+ (if nonempty (filter_rules all_rules FlagRuleT)
                  || nonempty (filter_rules all_rules ParameterRuleT)
                  || nonempty (filter_rules all_rules PrimaryOptionRuleT)
               then " [OPTIONS]" else "")
          +:+ concat_strings
                (List.map usage_argument (filter_rules all_rules PositionalArgumentRuleT))
          +:+ concat_strings
                (List.map usage_rest (filter_rules all_rules AllArgumentsRuleT))]
      ++ (if nonempty options then (nl +:+ "Options:") :: entry_lines options else [])
      ++ (if nonempty (_generate_commands_helps subrules None)
          then (nl +:+ "Commands:")
               :: entry_lines (_generate_commands_helps subrules None)
               ++ [nl +:+ "Run " +:+ dquote +:+ join " " (argv0 :: precommands)
                   +:+ " COMMAND --help" +:+ dquote
                   +:+ " for more information on a command."]
          else []) /\
    List.length out
    = List.length (option_list (app_help_info app_name help version)) + 1
      + section_lines (List.length (List.filter is_option all_rules)) 1
      + section_lines (subcommand_count subrules) 2.
Proof.
  intros Hname.
  pose proof (generate_options_helps_nameable names_of all_rules) as Hopts.
  rewrite Hname in Hopts. destruct Hopts as [options Hopts].
  pose proof (generate_options_helps_length names_of all_rules options Hopts) as Hlen.
  exists options. unfold generate_subcommand_help. cbv zeta. rewrite Hopts.
  rewrite commands_helps_filter.
  pose proof (commands_helps_length subrules None) as Hcmds.
  rewrite <- Hlen, <- Hcmds.
  rewrite usage_syntax_parts.
  unfold mbind, PyResult_bind.
  change (match app_help_info app_name help version with
          | Some app_info => [app_info]
          | None => []
          end) with (option_list (app_help_info app_name help version)).
  generalize (option_list (app_help_info app_name help version)). intros header.
  generalize (_generate_commands_helps subrules None). intros commands.
  destruct options as [| o options]; destruct commands as [| c commands];
    cbn [nonempty];
    repeat match goal with
      | |- context [__helpers_output (?h :: ?hs) ?x] =>
          let Hout := fresh "Hout" in
          let Hl := fresh "Hl" in
          destruct (helpers_output_entry_lines (h :: hs) x ltac:(discriminate))
            as (Hout & Hl);
          rewrite Hout; clear Hout
      end;
    (eexists; split; [reflexivity |]; split; [reflexivity |]; split;
     [rewrite <- ?List.app_assoc, ?List.app_nil_r; reflexivity |]);
    repeat rewrite List.length_app;
    repeat match goal with
      | H : List.length (entry_lines _) = _ |- _ => rewrite H; clear H
      end;
    simpl; lia.
Qed.

(** X14: when a parameter among the rules has no name and no keyword that
    gives one, [generate_subcommand_help] returns no help at all: the
    [ValueError] of [max] on an empty sequence is raised. *)
Theorem generate_subcommand_help_unnamed
    (subrules all_rules : list CliRule) (app_name version help : option string)
    (precommands : list string) :
  forallb (nameable names_of) all_rules = false ->
  generate_subcommand_help names_of argv0 subrules all_rules app_name version help
    precommands = Raise (ValueError "max() arg is an empty sequence").
Proof.
  intros Hname.
  pose proof (generate_options_helps_nameable names_of all_rules) as Hopts.
  rewrite Hname in Hopts.
  unfold generate_subcommand_help. cbv zeta. rewrite Hopts. reflexivity.
Qed.

(** X15: [generate_help] lets through every exception of the resolver that is
    no [CliError]; when the resolver returns, the help is that of the rules
    it found active, with the short names of the subcommands it entered, and
    a subcommand without a short name makes [generate_help] raise. *)
Theorem generate_help_cases
    (parser : list CliRule -> bool -> list string -> PyResult RunContext)
    (rules : list CliRule) (app_name version help : option string)
    (subargs : list string) :
  (forall e,
     parser rules true subargs = Raise e ->
     is_CliError e = false ->
     generate_help parser names_of argv0 rules app_name version help subargs = Raise e) /\
  (forall ctx precommands,
     parser rules true subargs = Ok ctx ->
     map_result _subcommand_short_name (active_subcommands ctx) = Ok precommands ->
     generate_help parser names_of argv0 rules app_name version help subargs
     = generate_subcommand_help names_of argv0 rules (active_rules ctx) app_name version
         help precommands) /\
  (forall ctx e,
     parser rules true subargs = Ok ctx ->
     map_result _subcommand_short_name (active_subcommands ctx) = Raise e ->
     generate_help parser names_of argv0 rules app_name version help subargs = Raise e).
Proof.
  unfold generate_help. repeat split.
  - intros e -> He. simpl. rewrite He. reflexivity.
  - intros ctx pre -> Hpre. simpl. rewrite Hpre. reflexivity.
  - intros ctx e -> Hpre. simpl. rewrite Hpre. simpl.
    assert (Hno : no_CliError (map_result _subcommand_short_name (active_subcommands ctx))).
    { apply no_CliError_map_result. intros rule e' He'.
      unfold _subcommand_short_name in He'.
      destruct (has_keywords rule); [destruct (keywords_of rule) |];
        try discriminate He'; injection He' as <-; reflexivity. }
    rewrite (Hno e Hpre). reflexivity.
Qed.

End WholeHelp.

Lemma generate_subcommand_help_lines_witness :
  exists options out,
    _generate_options_helps names_from_keywords [remote_rm; param_p] = Ok options /\
    generate_subcommand_help names_from_keywords "app" [remote_rm; param_p]
      [remote_rm; param_p] (Some "myapp") (Some "1.0") None [] = Ok out /\
    out
    = option_list (app_help_info (Some "myapp") None (Some "1.0"))
      ++ ["Usage:" +:+ nl +:+ "  "
          +:+ join " " ["app"]
          +:+ (if nonempty (_generate_commands_helps [remote_rm; param_p] None)
               then " [COMMAND]" else "")
          +:+ (if nonempty (filter_rules [remote_rm; param_p] FlagRuleT)
                  || nonempty (filter_rules [remote_rm; param_p] ParameterRuleT)
                  || nonempty (filter_rules [remote_rm; param_p] PrimaryOptionRuleT)
               then " [OPTIONS]" else "")
          +:+ concat_strings
                (List.map usage_argument
                   (filter_rules [remote_rm; param_p] PositionalArgumentRuleT))
          +:+ concat_strings
                (List.map usage_rest (filter_rules [remote_rm; param_p] AllArgumentsRuleT))]
      ++ (if nonempty options then (nl +:+ "Options:") :: entry_lines options else [])
      ++ (if nonempty (_generate_commands_helps [remote_rm; param_p] None)
          then (nl +:+ "Commands:")
               :: entry_lines (_generate_commands_helps [remote_rm; param_p] None)
               ++ [nl +:+ "Run " +:+ dquote +:+ join " " ["app"]
                   +:+ " COMMAND --help" +:+ dquote
                   +:+ " for more information on a command."]
          else []) /\
    List.length out = 1 + 1 + 2 + 3.
Proof.
  apply (generate_subcommand_help_lines names_from_keywords "app" [remote_rm; param_p]
           [remote_rm; param_p] (Some "myapp") (Some "1.0") None []).
  reflexivity.
Defined.

Lemma generate_subcommand_help_unnamed_witness :
  generate_subcommand_help names_from_keywords "app" [] [ParameterRule [] None plain]
    None None None []
  = Raise (ValueError "max() arg is an empty sequence").
Proof.
  apply (generate_subcommand_help_unnamed names_from_keywords "app" []
           [ParameterRule [] None plain] None None None []).
  reflexivity.
Defined.

Lemma generate_help_cases_witness :
  generate_help parse_args names_from_keywords "app"
    [ParameterRule ["--param"] None multi_int] None None None ["--param"; "x"]
  = Raise (ValueError "invalid literal for int() with base 10: 'x'").
Proof.
  destruct (generate_help_cases names_from_keywords "app" parse_args
              [ParameterRule ["--param"] None multi_int] None None None ["--param"; "x"])
    as [H _].
  apply H; reflexivity.
Defined.

(** X16: when one of the names that the keywords of an unnamed parameter give
    is strictly longer than all the others, the placeholder is that name in
    upper case, in whatever order the set of names iterates. *)
Theorem param_var_name_longest_unique
    (names_of : list string -> list string) (keywords : list string) (v : ValueRule)
    (n : string) :
  In n (names_of keywords) ->
  (forall m, In m (names_of keywords) -> m <> n -> String.length m < String.length n) ->
  _param_var_name names_of (ParameterRule keywords None v) = Ok (upper n).
Proof.
  intros Hin Hlong. unfold _param_var_name. simpl.
  destruct (names_of keywords) as [| n0 names]; [destruct Hin |]. simpl.
  destruct (max_by_len_from_spec names n0) as [Hr Hall].
  rewrite List.Forall_forall in Hall.
  destruct (string_dec (max_by_len_from n0 names) n) as [-> | Hne]; [reflexivity |].
  pose proof (Hlong _ Hr Hne). pose proof (Hall n Hin). lia.
Qed.

Lemma param_var_name_longest_unique_witness :
  _param_var_name names_from_keywords (ParameterRule ["-p"; "--param"] None plain)
  = Ok (upper "param").
Proof.
  apply param_var_name_longest_unique.
  - right. left. reflexivity.
  - intros m Hm Hne. vm_compute in Hm.
    destruct Hm as [<- | [<- | []]]; [simpl; lia | contradiction Hne; reflexivity].
Defined.
